(** * FluffyBall: the displacement, shading, impulse and preset model of fluffy.js

    A shallow embedding of [src/fluffy.js] over the real numbers.  The two
    GLSL shaders become functions on reals (exact arithmetic in place of
    32-bit floats); the JavaScript of the sketch (the shared [data] record,
    the preset generator, the mesh rebuild, the pointer handlers and the
    render callback) becomes a state-and-exception monad over one [World]. *)

From Stdlib Require Import Reals Lra Lia ZArith String List Bool.
From Stdlib Require Import Machin.
Import ListNotations.
Open Scope R_scope.

(** ** GLSL values and built-ins *)

Module vec2.
Record t : Type := mk { x : R; y : R }.
Definition zero : t := mk 0 0.
Definition scale (a : t) (k : R) : t := mk (x a * k) (y a * k).
End vec2.

Module vec3.
Record t : Type := mk { x : R; y : R; z : R }.
Definition add (a b : t) : t := mk (x a + x b) (y a + y b) (z a + z b).
Definition scale (a : t) (k : R) : t := mk (x a * k) (y a * k) (z a * k).
End vec3.

Module vec4.
Record t : Type := mk { x : R; y : R; z : R; w : R }.
Definition of_vec3 (a : vec3.t) (w : R) : t := mk (vec3.x a) (vec3.y a) (vec3.z a) w.
End vec4.

(** GLSL [atan(y, x)]: the angle of the point [(x, y)], in [-PI, PI].  GLSL
    leaves [atan(0, 0)] undefined; the value chosen here is [0]. *)
Definition atan2 (y x : R) : R :=
  if Rlt_dec 0 x then atan (y / x)
  else if Rlt_dec x 0 then
    (if Rle_dec 0 y then atan (y / x) + PI else atan (y / x) - PI)
  else if Rlt_dec 0 y then PI / 2
  else if Rlt_dec y 0 then - (PI / 2)
  else 0.

(** GLSL [length(vec2(a, b))]. *)
Definition length2 (a b : R) : R := sqrt (a * a + b * b).

(** GLSL [mix(a, b, t)] on [vec3]: [a * (1 - t) + b * t], componentwise. *)
Definition mix (a b : vec3.t) (t : R) : vec3.t :=
  vec3.add (vec3.scale a (1 - t)) (vec3.scale b t).

(** ** The shaders *)

(** What the vertex stage hands on: the two varyings and the displaced
    object-space position [pos] that [gl_Position] projects. *)
Record VertexOut : Type := mkVertexOut {
  vUv : vec2.t;
  uvNoise : R;
  pos : vec3.t
}.

Section Shaders.

(** [glsl-noise/simplex/4d] and [glsl-noise/simplex/3d] are external
    packages: the shaders are parametrised by the two noise fields. *)
Variable noise : vec4.t -> R.
Variable noise3 : vec3.t -> R.

Definition vertexShader (u_impulse : vec2.t)
    (u_spikeCount u_spikeLength u_sceneRotationY : R)
    (position normal : vec3.t) (uv : vec2.t) : VertexOut :=
  let pos := position in
  (* extrusion length based on simplex noise *)
  let uvNoise :=
    noise (vec4.of_vec3 (vec3.scale position u_spikeCount) 10) * u_spikeLength
    + (u_spikeLength - 1) in
  let noiseLength := uvNoise * 0.39 in
  let pos := vec3.add pos (vec3.scale normal noiseLength) in
  (* apply velocity only to vertices that stick out *)
  let pos :=
    if Rlt_dec 0 uvNoise then
      let intensity := uvNoise * 5 in
      (* horizontal *)
      let impulseX := vec2.x u_impulse in
      let angleH := atan2 (vec3.z pos) (vec3.x pos) in
      let hLength := length2 (vec3.x pos) (vec3.z pos) in
      let xpos := cos (angleH + impulseX * intensity) * hLength in
      let zPos := sin (angleH + impulseX * intensity) * hLength in
      (* vertical: apply scene rotation to horizontal angle *)
      let zPos2 := sin (angleH + impulseX * intensity - u_sceneRotationY) * hLength in
      let angleV := atan2 zPos2 (vec3.y pos) - vec2.y u_impulse * intensity in
      let vLength := length2 (vec3.y pos) zPos2 in
      let yPos := cos angleV * vLength in
      vec3.mk xpos yPos zPos
    else pos in
  mkVertexOut uv uvNoise pos.

Definition fragmentShader (u_colorA u_colorB : vec3.t) (u_time u_spikeLength : R)
    (vUv : vec2.t) (uvNoise : R) : vec4.t :=
  let sine := sin (vec2.x vUv * 3.14) in
  let n :=
    noise3 (vec3.mk (vec2.x vUv * 6) (vec2.y vUv * 6) (u_time * 0.02)) * 0.5 + 0.5 in
  let darkness := uvNoise / u_spikeLength + 1 in
  let col := mix u_colorA u_colorB n in
  let col := vec3.scale (vec3.scale col (sine * 0.6 + 0.4)) darkness in
  vec4.of_vec3 col 1.

(** *** The quantities the two models are described with

    The steps as the description of the Displacement Model names them: the
    noise scalar, the radially extruded position and the two polar forms;
    and the Shading Model's colour with its banding factor left open. *)

Definition noiseScalar (detail len : R) (position : vec3.t) : R :=
  noise (vec4.of_vec3 (vec3.scale position detail) 10) * len + (len - 1).

Definition extruded (detail len : R) (position normal : vec3.t) : vec3.t :=
  vec3.add position (vec3.scale normal (noiseScalar detail len position * 0.39)).

Section Swirl.
Variables (impulse : vec2.t) (detail len sceneRotationY : R).
Variables (position normal : vec3.t).

Definition intensity : R := noiseScalar detail len position * 5.

Definition hLength : R :=
  length2 (vec3.x (extruded detail len position normal))
          (vec3.z (extruded detail len position normal)).

(** [angleH] after its rotation by [impulse.x * intensity]. *)
Definition angleH' : R :=
  atan2 (vec3.z (extruded detail len position normal))
        (vec3.x (extruded detail len position normal))
  + vec2.x impulse * intensity.

Definition correctedZ : R := sin (angleH' - sceneRotationY) * hLength.

Definition vLength : R :=
  length2 (vec3.y (extruded detail len position normal)) correctedZ.

(** [angleV] after its rotation by [- impulse.y * intensity]. *)
Definition angleV' : R :=
  atan2 correctedZ (vec3.y (extruded detail len position normal))
  - vec2.y impulse * intensity.
End Swirl.

(** The shaded colour for a given banding factor [sine]. *)
Definition shade (sine : R) (A B : vec3.t) (time len : R)
    (uv : vec2.t) (uvNoise : R) : vec4.t :=
  let n := noise3 (vec3.mk (vec2.x uv * 6) (vec2.y uv * 6) (time * 0.02)) * 0.5 + 0.5 in
  let color := mix A B n in
  let darkness := uvNoise / len + 1 in
  vec4.of_vec3 (vec3.scale (vec3.scale color (sine * 0.6 + 0.4)) darkness) 1.

End Shaders.

(** ** JavaScript numbers *)

(** [Math.trunc], and the remainder [a % b] (the sign follows [a]). *)
Definition trunc (r : R) : Z :=
  if Rle_dec 0 r then Int_part r else (- Int_part (- r))%Z.

Definition js_rem (a b : R) : R := a - b * IZR (trunc (a / b)).

(** [array[i]] for an integer-valued index: [undefined] out of range. *)
Definition js_index {A : Type} (array : list A) (i : Z) : option A :=
  if (i <? 0)%Z then None else nth_error array (Z.to_nat i).

(** ** The state of the sketch *)

Definition Palette : Type := list string.

(** The shared [data] record ([reset], a no-op button callback, is left out).
    [None] in [palette] is JavaScript's [undefined]. *)
Record Data : Type := mkData {
  shouldUpdate : bool;
  shouldReset : bool;
  palette : option Palette;
  spikeLength : R;
  spikeDetail : R
}.

(** [canvas-sketch-util/random]'s current generator: [Math.random], or the
    stream of a seed together with the number of values drawn from it. *)
Inductive Generator : Type :=
| MathRandom
| Seeded (seed : Z) (drawn : nat).

(** A uniform holding a [THREE.Vector2]: a vector of its own, or a reference
    to the handlers' [currentImpulse] object. *)
Inductive Vector2Ref : Type :=
| OwnVector2 (v : vec2.t)
| TheCurrentImpulse.

(** The uniforms of a mesh's [ShaderMaterial]; a colour is kept as the
    argument [new THREE.Color] was given ([None] for [undefined]). *)
Record Uniforms : Type := mkUniforms {
  u_time : R;
  u_colorA : option string;
  u_colorB : option string;
  u_impulse : Vector2Ref;
  u_spikeCount : R;
  u_spikeLength : R;
  u_sceneRotationY : R
}.

(** A mesh object: its identity (the number of meshes allocated before it)
    and its uniforms. *)
Record Mesh : Type := mkMesh {
  mesh_id : nat;
  uniforms : Uniforms
}.

Record Scene : Type := mkScene {
  rotation : vec2.t;
  children : list nat
}.

Record World : Type := mkWorld {
  data : Data;
  currentRandom : Generator;
  mathRandomCalls : nat;
  scene : Scene;
  mesh : option Mesh;
  meshesCreated : nat;
  isMouseDown : bool;
  mouseList : list vec2.t;
  currentImpulse : vec2.t;
  innerWidth : R;
  innerHeight : R
}.

Definition set_data (f : Data -> Data) (w : World) : World :=
  mkWorld (f (data w)) (currentRandom w) (mathRandomCalls w) (scene w) (mesh w)
    (meshesCreated w) (isMouseDown w) (mouseList w) (currentImpulse w)
    (innerWidth w) (innerHeight w).

Definition set_currentRandom (g : Generator) (w : World) : World :=
  mkWorld (data w) g (mathRandomCalls w) (scene w) (mesh w)
    (meshesCreated w) (isMouseDown w) (mouseList w) (currentImpulse w)
    (innerWidth w) (innerHeight w).

Definition set_mathRandomCalls (n : nat) (w : World) : World :=
  mkWorld (data w) (currentRandom w) n (scene w) (mesh w)
    (meshesCreated w) (isMouseDown w) (mouseList w) (currentImpulse w)
    (innerWidth w) (innerHeight w).

Definition set_scene (f : Scene -> Scene) (w : World) : World :=
  mkWorld (data w) (currentRandom w) (mathRandomCalls w) (f (scene w)) (mesh w)
    (meshesCreated w) (isMouseDown w) (mouseList w) (currentImpulse w)
    (innerWidth w) (innerHeight w).

Definition set_mesh (m : option Mesh) (w : World) : World :=
  mkWorld (data w) (currentRandom w) (mathRandomCalls w) (scene w) m
    (meshesCreated w) (isMouseDown w) (mouseList w) (currentImpulse w)
    (innerWidth w) (innerHeight w).

Definition set_meshesCreated (n : nat) (w : World) : World :=
  mkWorld (data w) (currentRandom w) (mathRandomCalls w) (scene w) (mesh w)
    n (isMouseDown w) (mouseList w) (currentImpulse w)
    (innerWidth w) (innerHeight w).

Definition set_isMouseDown (b : bool) (w : World) : World :=
  mkWorld (data w) (currentRandom w) (mathRandomCalls w) (scene w) (mesh w)
    (meshesCreated w) b (mouseList w) (currentImpulse w)
    (innerWidth w) (innerHeight w).

Definition set_mouseList (l : list vec2.t) (w : World) : World :=
  mkWorld (data w) (currentRandom w) (mathRandomCalls w) (scene w) (mesh w)
    (meshesCreated w) (isMouseDown w) l (currentImpulse w)
    (innerWidth w) (innerHeight w).

Definition set_currentImpulse (v : vec2.t) (w : World) : World :=
  mkWorld (data w) (currentRandom w) (mathRandomCalls w) (scene w) (mesh w)
    (meshesCreated w) (isMouseDown w) (mouseList w) v
    (innerWidth w) (innerHeight w).

Definition set_shouldUpdate (b : bool) (d : Data) : Data :=
  mkData b (shouldReset d) (palette d) (spikeLength d) (spikeDetail d).

Definition set_shouldReset (b : bool) (d : Data) : Data :=
  mkData (shouldUpdate d) b (palette d) (spikeLength d) (spikeDetail d).

Definition set_palette (p : option Palette) (d : Data) : Data :=
  mkData (shouldUpdate d) (shouldReset d) p (spikeLength d) (spikeDetail d).

Definition set_spikeLength (v : R) (d : Data) : Data :=
  mkData (shouldUpdate d) (shouldReset d) (palette d) v (spikeDetail d).

Definition set_spikeDetail (v : R) (d : Data) : Data :=
  mkData (shouldUpdate d) (shouldReset d) (palette d) (spikeLength d) v.

Definition set_rotation (r : vec2.t) (s : Scene) : Scene := mkScene r (children s).

Definition set_children (c : list nat) (s : Scene) : Scene := mkScene (rotation s) c.

(** ** Statements: state passing with exceptions

    A statement runs on a world and returns normally or throws; what it
    wrote before throwing stays written. *)

Inductive Outcome (A : Type) : Type :=
| Returned (a : A)
| Thrown.
Arguments Returned {A} a.
Arguments Thrown {A}.

Definition JS (A : Type) : Type := World -> Outcome A * World.

Definition ret {A : Type} (a : A) : JS A := fun w => (Returned a, w).

Definition bind {A B : Type} (c : JS A) (k : A -> JS B) : JS B :=
  fun w =>
    match c w with
    | (Returned a, w') => k a w'
    | (Thrown, w') => (Thrown, w')
    end.

Definition throw {A : Type} : JS A := fun w => (Thrown, w).

Definition gets {A : Type} (f : World -> A) : JS A := fun w => (Returned (f w), w).

Definition modify (f : World -> World) : JS unit := fun w => (Returned tt, f w).

Definition when (b : bool) (c : JS unit) : JS unit := if b then c else ret tt.

Declare Scope js_scope.
Delimit Scope js_scope with js.
Notation "x <- c ;; k" := (bind c (fun x => k))
  (at level 61, c at next level, right associativity) : js_scope.
Notation "c ;; k" := (bind c (fun _ => k))
  (at level 61, right associativity) : js_scope.
Open Scope js_scope.

(** A statement keeps an observation [f] of the world when [f] reads the same
    after it, however it ends. *)
Definition keeps {X A : Type} (f : World -> X) (c : JS A) : Prop :=
  forall w, f (snd (c w)) = f w.

(** The two rebuild-request flags. *)
Definition flags (w : World) : bool * bool :=
  (shouldReset (data w), shouldUpdate (data w)).

(** The three generated parameters. *)
Definition params (w : World) : R * R * option Palette :=
  (spikeDetail (data w), spikeLength (data w), palette (data w)).


(** A world the render callback can draw: a mesh exists and a palette is
    chosen, as after the set-up. *)
Definition ready (w : World) : Prop :=
  mesh w <> None /\ palette (data w) <> None.

(** Everything the preset generator has no business with. *)
Definition outsideDefaults (w : World) :
    bool * bool * Scene * option Mesh * nat * bool * list vec2.t * vec2.t * R * R :=
  (shouldReset (data w), shouldUpdate (data w), scene w, mesh w, meshesCreated w,
   isMouseDown w, mouseList w, currentImpulse w, innerWidth w, innerHeight w).

(** ** The sketch *)

Section Sketch.

(** The external collaborators: [seedRandom seed i] is the [i]-th value of
    the stream [seed-random] makes from [seed], [mathRandom i] the value of
    the [i]-th call the random module makes to [Math.random], [palettes] the
    table of [nice-color-palettes], and [tableDraws] the number of values the
    random module draws from a generator it has just installed, to shuffle the
    table of its noise functions (255 in the package). *)
Variable seedRandom : Z -> nat -> R.
Variable mathRandom : nat -> R.
Variable palettes : list Palette.
Variable tableDraws : nat.

(** *** canvas-sketch-util/random *)

(** Modelled from the spec: [random.setSeed] of the external package
    [canvas-sketch-util/random]; a number seeds a fresh pseudo-random stream,
    [undefined] resets the module to [Math.random]. Either way the module
    then rebuilds its noise table, which takes [tableDraws] values from the
    generator just installed. *)
Definition setSeed (seed : option Z) : JS unit :=
  match seed with
  | Some s => modify (set_currentRandom (Seeded s tableDraws))
  | None =>
      modify (set_currentRandom MathRandom) ;;
      n <- gets mathRandomCalls ;;
      modify (set_mathRandomCalls (n + tableDraws))
  end.

(** Modelled from the spec: [random.value], the next value of the current
    generator. *)
Definition value : JS R :=
  g <- gets currentRandom ;;
  match g with
  | MathRandom =>
      n <- gets mathRandomCalls ;;
      modify (set_mathRandomCalls (S n)) ;;
      ret (mathRandom n)
  | Seeded s i =>
      modify (set_currentRandom (Seeded s (S i))) ;;
      ret (seedRandom s i)
  end.

(** Modelled from the spec: [random.range], a uniform draw scaled to
    [min, max). *)
Definition range (min max : R) : JS R :=
  v <- value ;;
  ret (v * (max - min) + min).

(** Modelled from the spec: [random.rangeFloor], the floor of [range]. *)
Definition rangeFloor (min max : R) : JS Z :=
  r <- range min max ;;
  ret (Int_part r).

(** Modelled from the spec: [random.pick], a uniform choice of one element;
    [undefined] on an empty array. *)
Definition pick {A : Type} (array : list A) : JS (option A) :=
  match array with
  | [] => ret None
  | _ =>
      i <- rangeFloor 0 (INR (length array)) ;;
      ret (js_index array i)
  end.

(** *** Defaults *)

Definition colorSeeds : list Z :=
  [495948; 234144; 382666; 946739; 253862; 729250; 12290; 958027; 277064; 339463]%Z.

Definition spikeSeeds : list Z :=
  [614884; 383036; 191802; 967721; 384540; 111465]%Z.

Definition spikeLengthSeeds : list Z := [533299; 122798]%Z.

Definition createDefaults : JS unit :=
  s <- pick spikeSeeds ;;
  setSeed s ;;
  v <- range 1.35 40 ;;
  modify (set_data (set_spikeDetail v)) ;;

  setSeed None ;;
  s <- pick spikeLengthSeeds ;;
  setSeed s ;;
  v <- range 1.0 1.4 ;;
  modify (set_data (set_spikeLength v)) ;;

  setSeed None ;;
  s <- pick colorSeeds ;;
  setSeed s ;;
  p <- pick palettes ;;
  modify (set_data (set_palette p)).

(** *** The mesh *)

Definition scene_remove (id : nat) : JS unit :=
  modify (set_scene (fun s =>
    set_children (filter (fun c => negb (Nat.eqb c id)) (children s)) s)).

Definition scene_add (id : nat) : JS unit :=
  modify (set_scene (fun s => set_children (children s ++ [id]) s)).

(** The uniforms [createMesh] gives a new material.  [palette[0]] throws
    when [palette] is [undefined]. *)
Definition newUniforms (d : Data) (p : Palette) : Uniforms :=
  mkUniforms 0 (nth_error p 0) (nth_error p 3) (OwnVector2 vec2.zero)
    (spikeDetail d) (spikeLength d) 0.

Definition createMesh (reset : bool) : JS unit :=
  m <- gets mesh ;;
  match m with
  | Some old => scene_remove (mesh_id old)
  | None => ret tt
  end ;;
  when reset createDefaults ;;
  d <- gets data ;;
  match palette d with
  | None => throw
  | Some p =>
      id <- gets meshesCreated ;;
      modify (set_meshesCreated (S id)) ;;
      modify (set_mesh (Some (mkMesh id (newUniforms d p)))) ;;
      scene_add id
  end.

(** *** Interaction *)

(** A pointer or touch event: the client coordinates and the [(pageX, pageY)]
    of its touches (none for a mouse event). *)
Record Event : Type := mkEvent {
  clientX : R;
  clientY : R;
  touches : list vec2.t
}.

Definition getInputPosition (e : Event) : JS vec2.t :=
  let eX := clientX e in
  let eY := clientY e in
  let (eX, eY) :=
    match touches e with
    | touch :: _ => (vec2.x touch, vec2.y touch)
    | [] => (eX, eY)
    end in
  width <- gets innerWidth ;;
  height <- gets innerHeight ;;
  let eX := (eX / width) * 2 - 1 in
  let eY := - (eY / height) * 2 + 1 in
  ret (vec2.mk eX eY).

(** The drag direction: [-1] when the scene is rotated upside down. *)
Definition direction (rotationX : R) : R :=
  if Rlt_dec 1 (js_rem ((rotationX + PI / 2) / PI) 2) then -1 else 1.

Definition onMouseMove (e : Event) : JS unit :=
  down <- gets isMouseDown ;;
  when down (
    p <- getInputPosition e ;;
    l <- gets mouseList ;;
    let lastMouse := last l p in
    modify (set_mouseList (l ++ [p])) ;;
    (* check if scene is rotated upside down *)
    s <- gets scene ;;
    let direction := direction (vec2.x (rotation s)) in
    i <- gets currentImpulse ;;
    modify (set_currentImpulse
      (vec2.mk (vec2.x i + direction * (vec2.x p - vec2.x lastMouse) * 0.5) (vec2.y i))) ;;
    i <- gets currentImpulse ;;
    modify (set_currentImpulse
      (vec2.mk (vec2.x i) (vec2.y i - (vec2.y p - vec2.y lastMouse) * 0.5)))
  ).

Definition onMouseDown (e : Event) : JS unit :=
  modify (set_isMouseDown true) ;;
  p <- getInputPosition e ;;
  modify (set_mouseList [p]).

Definition onMouseUp (e : Event) : JS unit :=
  modify (set_isMouseDown false).

(** The debug panel: the library writes a slider's value to the bound field
    and then runs the [onChange] callback. *)
Definition onChangeDetail (v : R) : JS unit :=
  modify (set_data (set_spikeDetail v)) ;;
  modify (set_data (set_shouldUpdate true)).

Definition onChangeSize (v : R) : JS unit :=
  modify (set_data (set_spikeLength v)) ;;
  modify (set_data (set_shouldUpdate true)).

Definition onChangeRegenerate : JS unit :=
  modify (set_data (set_shouldReset true)).

(** *** Runtime *)

(** [mesh.material.uniforms...] throws on a [null] mesh. *)
Definition updateUniforms (time : R) : JS unit :=
  m <- gets mesh ;;
  match m with
  | None => throw
  | Some m =>
      s <- gets scene ;;
      let u := uniforms m in
      modify (set_mesh (Some (mkMesh (mesh_id m)
        (mkUniforms time (u_colorA u) (u_colorB u) TheCurrentImpulse
           (u_spikeCount u) (u_spikeLength u) (vec2.y (rotation s))))))
  end.

(** The three parts of the render callback, as its comments divide it. *)

(** Recreate mesh if data prop has changed: the two flags are read once,
    before either branch runs. *)
Definition resetBranch : JS unit :=
  modify (set_data (set_shouldReset false)) ;;
  modify (set_data (set_shouldUpdate false)) ;;
  createMesh true.

Definition updateBranch : JS unit :=
  modify (set_data (set_shouldUpdate false)) ;;
  createMesh false.

Definition recreateMesh : JS unit :=
  d <- gets data ;;
  let shouldReset := shouldReset d in
  let shouldUpdate := shouldUpdate d in
  when shouldReset resetBranch ;;
  when shouldUpdate updateBranch.

Definition rotateScene : JS unit :=
  i <- gets currentImpulse ;;
  modify (set_currentImpulse (vec2.mk (vec2.x i * 0.9) (vec2.y i))) ;;
  i <- gets currentImpulse ;;
  modify (set_currentImpulse (vec2.mk (vec2.x i) (vec2.y i * 0.9))) ;;
  i <- gets currentImpulse ;;
  modify (set_scene (fun s =>
    set_rotation (vec2.mk (vec2.x (rotation s)) (vec2.y (rotation s) + (0.003 + vec2.x i))) s)) ;;
  i <- gets currentImpulse ;;
  modify (set_scene (fun s =>
    set_rotation (vec2.mk (vec2.x (rotation s) + vec2.y i) (vec2.y (rotation s))) s)).

Definition render (time : R) : JS unit :=
  recreateMesh ;;
  rotateScene ;;
  updateUniforms time.

(** Successive frames with no event in between, at the given times. *)
Fixpoint frames (times : list R) : JS unit :=
  match times with
  | [] => ret tt
  | time :: rest => render time ;; frames rest
  end.

(** The generated parameters as functions of the picked seeds: seed the
    stream, then draw. *)
Definition detailOfSeed (seed : Z) : R :=
  seedRandom seed tableDraws * (40 - 1.35) + 1.35.

Definition lengthOfSeed (seed : Z) : R :=
  seedRandom seed tableDraws * (1.4 - 1.0) + 1.0.

Definition paletteOfSeed (seed : Z) : option Palette :=
  match palettes with
  | [] => None
  | _ =>
      js_index palettes
        (Int_part (seedRandom seed tableDraws * (INR (length palettes) - 0) + 0))
  end.

End Sketch.

(** ** Sample inputs *)

(** A noise field that is the same everywhere. *)
Definition flatNoise (c : R) : vec4.t -> R := fun _ => c.

Definition white : vec3.t := vec3.mk 1 1 1.

(** The first palette of the table; the state the set-up leaves behind on a
    window of 1000 by 1000 pixels; a press at the centre of the window and a
    move 50 pixels to its right. *)
Definition samplePalette : Palette :=
  ["#69d2e7"; "#a7dbd8"; "#e0e4cc"; "#f38630"; "#fa6900"]%string.

Definition sampleData : Data := mkData false false (Some samplePalette) 1.2 20.

Definition sampleWorld : World :=
  mkWorld sampleData (Seeded 495948 256) 513
    (mkScene (vec2.mk 0 0) [0%nat])
    (Some (mkMesh 0 (newUniforms sampleData samplePalette))) 1
    false [vec2.mk 1 1] vec2.zero 1000 1000.

Definition pressCentre : Event := mkEvent 500 500 [].

Definition moveRight : Event := mkEvent 550 500 [].

(** A stream that always yields [0], and one that always yields [1/2]. *)
Definition zeroStream : Z -> nat -> R := fun _ _ => 0.

Definition halfRandom : nat -> R := fun _ => 0.5.

(** ** The view: renderer size and camera *)

(** The fields of the [THREE.OrthographicCamera] the sketch writes; [target]
    is the point [lookAt] was last given. *)
Record Camera : Type := mkCamera {
  left : R;
  right : R;
  top : R;
  bottom : R;
  near : R;
  far : R;
  position : vec3.t;
  target : vec3.t
}.

Record Renderer : Type := mkRenderer {
  pixelRatio : R;
  width : R;
  height : R
}.

Record View : Type := mkView {
  renderer : Renderer;
  camera : Camera
}.

(** The camera as the set-up leaves it: the library's default frustum, moved
    to [(2, 1.3, -4)] and turned to the origin. *)
Definition setupCamera : Camera :=
  mkCamera (-1) 1 1 (-1) 0.1 2000 (vec3.mk 2 1.3 (-4)) (vec3.mk 0 0 0).

(** The [resize] callback of the sketch. *)
Definition resize (pixelRatio viewportWidth viewportHeight : R) (v : View) : View :=
  let renderer := mkRenderer pixelRatio viewportWidth viewportHeight in
  let aspect := viewportWidth / viewportHeight in
  (* Ortho zoom *)
  let zoom := if Rlt_dec aspect 1 then 2.5 else 1.5 in
  (* Bounds, near/far, position and look at world center *)
  mkView renderer
    (mkCamera (- zoom * aspect) (zoom * aspect) zoom (- zoom) (-100) 100
       (vec3.mk 0 0 zoom) (vec3.mk 0 0 0)).

(** ** Gestures *)

(** The normalized pointer position [getInputPosition] computes, on a window
    of the given size. *)
Definition normalized (e : Event) (width height : R) : vec2.t :=
  match touches e with
  | touch :: _ => vec2.mk (vec2.x touch / width * 2 - 1) (- (vec2.y touch / height) * 2 + 1)
  | [] => vec2.mk (clientX e / width * 2 - 1) (- (clientY e / height) * 2 + 1)
  end.

(** The coordinates [getInputPosition] reads: those of the first touch when
    there is one, the client coordinates otherwise. *)
Definition pointer (e : Event) : vec2.t :=
  match touches e with
  | touch :: _ => touch
  | [] => vec2.mk (clientX e) (clientY e)
  end.

(** Move events handled one after the other, no frame in between. *)
Fixpoint moves (events : list Event) : JS unit :=
  match events with
  | [] => ret tt
  | e :: rest => onMouseMove e ;; moves rest
  end.

(** ** Invariants of the mesh *)

(** The scene holds the current mesh and nothing else, and the identity of
    that mesh was handed out before. *)
Definition sceneHoldsMesh (w : World) : Prop :=
  exists m, mesh w = Some m
            /\ children (scene w) = [mesh_id m]
            /\ (mesh_id m < meshesCreated w)%nat.

(** The uniforms baked into the current mesh are the parameters in [data]. *)
Definition synced (w : World) : Prop :=
  exists m p, mesh w = Some m
              /\ palette (data w) = Some p
              /\ u_spikeCount (uniforms m) = spikeDetail (data w)
              /\ u_spikeLength (uniforms m) = spikeLength (data w)
              /\ u_colorA (uniforms m) = nth_error p 0
              /\ u_colorB (uniforms m) = nth_error p 3.

(** The number of meshes a frame builds for the given flags. *)
Definition rebuilds (reset update : bool) : nat :=
  ((if reset then 1 else 0) + (if update then 1 else 0))%nat.

(** A colour-noise field that is the same everywhere. *)
Definition flatNoise3 (c : R) : vec3.t -> R := fun _ => c.

(** What [n] rebuilds in a row make of a drawable world [w0]: the world [w]
    is drawable, [n] more meshes were allocated, rotation and impulse are
    untouched, the scene still holds exactly the current mesh if it did, and
    the uniforms are the parameters in [data] if a mesh was rebuilt or they
    were before. *)
Record Built (w0 w : World) (n : nat) : Prop := mkBuilt {
  built_ready : ready w;
  built_created : meshesCreated w = (meshesCreated w0 + n)%nat;
  built_rotation : rotation (scene w) = rotation (scene w0);
  built_impulse : currentImpulse w = currentImpulse w0;
  built_holds : sceneHoldsMesh w0 -> sceneHoldsMesh w;
  built_synced : (0 < n)%nat \/ synced w0 -> synced w
}.

(** The value the next draw of the random module gives. *)
Definition nextValue (seedRandom : Z -> nat -> R) (mathRandom : nat -> R) (w : World) : R :=
  match currentRandom w with
  | MathRandom => mathRandom (mathRandomCalls w)
  | Seeded seed i => seedRandom seed i
  end.

(** The calls to [Math.random] a run of the generator makes before it picks
    its second and its third seed: the first pick's call, if the module was
    not seeded, and the table draws of each reset. *)
Definition firstPickCalls (w : World) : nat :=
  match currentRandom w with
  | MathRandom => 1
  | Seeded _ _ => 0
  end.

Definition lengthSeedCall (tableDraws : nat) (w : World) : nat :=
  (mathRandomCalls w + firstPickCalls w + tableDraws)%nat.

Definition colorSeedCall (tableDraws : nat) (w : World) : nat :=
  (S (lengthSeedCall tableDraws w) + tableDraws)%nat.

(** The random module as a reset leaves it when [calls] calls to
    [Math.random] have been made. *)
Definition resetModule (calls : nat) (w : World) : World :=
  set_mathRandomCalls calls (set_currentRandom MathRandom w).

(** The sample state with the palette gone and a rebuild requested. *)
Definition noPaletteWorld : World :=
  set_data (fun d => set_shouldUpdate true (set_palette None d)) sampleWorld.

(** ** Drawing *)

(** The vector a [Vector2Ref] uniform holds when the mesh is drawn. *)
Definition vector2Of (w : World) (r : Vector2Ref) : vec2.t :=
  match r with
  | OwnVector2 v => v
  | TheCurrentImpulse => currentImpulse w
  end.

(** The vertex stage as the renderer runs it on a vertex of the current
    mesh: the shader applied to the uniforms of the mesh's material. *)
Definition drawnVertex (noise : vec4.t -> R) (w : World)
    (position normal : vec3.t) (uv : vec2.t) : option VertexOut :=
  match mesh w with
  | Some m =>
      let u := uniforms m in
      Some (vertexShader noise (vector2Of w (u_impulse u)) (u_spikeCount u)
              (u_spikeLength u) (u_sceneRotationY u) position normal uv)
  | None => None
  end.

(** ** Facts about the built-ins *)

Lemma sqrt_factor (x y : R) :
  x <> 0 -> sqrt (x * x + y * y) = Rabs x * sqrt (1 + (y / x)²).
Proof.
  intros Hx.
  replace (x * x + y * y) with (x² * (1 + (y / x)²)) by (unfold Rsqr; field; exact Hx).
  rewrite sqrt_mult; [ | apply Rle_0_sqr | pose proof (Rle_0_sqr (y / x)); lra ].
  now rewrite sqrt_Rsqr_abs.
Qed.

(** Going to polar form and back returns the first coordinate, also where
    [atan2] is undefined (the length is [0] there). *)
Lemma cos_atan2_length (y x : R) : cos (atan2 y x) * length2 x y = x.
Proof.
  assert (Hs : 0 < sqrt (1 + (y / x)²)).
  { apply sqrt_lt_R0. pose proof (Rle_0_sqr (y / x)); lra. }
  unfold atan2, length2.
  destruct (Rlt_dec 0 x) as [Hp | Hp].
  - rewrite sqrt_factor by lra. rewrite cos_atan, Rabs_pos_eq by lra. field. lra.
  - destruct (Rlt_dec x 0) as [Hn | Hn].
    + rewrite sqrt_factor by lra. rewrite Rabs_left by lra.
      destruct (Rle_dec 0 y).
      * rewrite neg_cos, cos_atan. field. lra.
      * replace (atan (y / x) - PI) with (- (- atan (y / x) + PI)) by ring.
        rewrite cos_neg, neg_cos, cos_neg, cos_atan. field. lra.
    + assert (x = 0) by lra. subst x.
      destruct (Rlt_dec 0 y); [ rewrite cos_PI2; ring | ].
      destruct (Rlt_dec y 0); [ rewrite cos_neg, cos_PI2; ring | ].
      assert (y = 0) by lra. subst y.
      replace (0 * 0 + 0 * 0) with 0 by ring. rewrite sqrt_0. ring.
Qed.

Lemma atan2_pos_x_axis (x : R) : 0 < x -> atan2 0 x = 0.
Proof.
  intros Hx. unfold atan2. destruct (Rlt_dec 0 x); [ | lra ].
  replace (0 / x) with 0 by (field; lra). apply atan_0.
Qed.

Lemma atan2_neg_y_axis (y : R) : y < 0 -> atan2 y 0 = - (PI / 2).
Proof.
  intros Hy. unfold atan2.
  destruct (Rlt_dec 0 0); [ lra | ].
  destruct (Rlt_dec 0 y); [ lra | ].
  destruct (Rlt_dec y 0); [ reflexivity | lra ].
Qed.

(** The literal of the fragment shader lies strictly below [PI]. *)
Lemma PI_gt_314 : 3.14 < PI.
Proof.
  pose proof (PI_2_3_7_ineq 1) as [H _].
  unfold sum_f_R0, tg_alt, PI_2_3_7_tg, Ratan_seq in H. simpl in H.
  lra.
Qed.

Lemma sin_314_pos : 0 < sin 3.14.
Proof. apply sin_gt_0; [ lra | apply PI_gt_314 ]. Qed.

(** ** The Displacement Model *)

Lemma vertexShader_uvNoise noise impulse detail len rot position normal uv :
  uvNoise (vertexShader noise impulse detail len rot position normal uv)
  = noiseScalar noise detail len position.
Proof. reflexivity. Qed.

(** The position a protruding vertex is moved to, step by step. *)
Lemma vertexShader_spike noise impulse detail len rot position normal uv :
  0 < noiseScalar noise detail len position ->
  pos (vertexShader noise impulse detail len rot position normal uv)
  = vec3.mk
      (cos (angleH' noise impulse detail len position normal)
       * hLength noise detail len position normal)
      (cos (angleV' noise impulse detail len rot position normal)
       * vLength noise impulse detail len rot position normal)
      (sin (angleH' noise impulse detail len position normal)
       * hLength noise detail len position normal).
Proof.
  intros Hspike. unfold vertexShader. fold (noiseScalar noise detail len position).
  cbv zeta. destruct (Rlt_dec 0 (noiseScalar noise detail len position)) as [_ | Hn];
    [ reflexivity | contradiction ].
Qed.

Lemma vertexShader_flush noise impulse detail len rot position normal uv :
  noiseScalar noise detail len position <= 0 ->
  pos (vertexShader noise impulse detail len rot position normal uv)
  = extruded noise detail len position normal.
Proof.
  intros Hflush. unfold vertexShader. fold (noiseScalar noise detail len position).
  cbv zeta. destruct (Rlt_dec 0 (noiseScalar noise detail len position)) as [Hp | _];
    [ lra | reflexivity ].
Qed.

(** C1 (as amended): for a vertex with uvNoise > 0, the displaced x and z are
    the horizontal polar form rotated by impulse.x * intensity, and only y is
    recomputed from the vertical polar form (angleV, vLength) of
    (y, correctedZ) rotated by -impulse.y * intensity: y = cos(angleV') * vLength. *)
Theorem C1_spike_y_from_vertical_z_from_horizontal
    noise impulse detail len rot position normal uv :
  0 < uvNoise (vertexShader noise impulse detail len rot position normal uv) ->
  let out := pos (vertexShader noise impulse detail len rot position normal uv) in
  vec3.y out = cos (angleV' noise impulse detail len rot position normal)
               * vLength noise impulse detail len rot position normal
  /\ vec3.z out = sin (angleH' noise impulse detail len position normal)
                  * hLength noise detail len position normal
  /\ vec3.x out = cos (angleH' noise impulse detail len position normal)
                  * hLength noise detail len position normal.
Proof.
  rewrite vertexShader_uvNoise. intros Hspike out. subst out.
  rewrite (vertexShader_spike _ _ _ _ _ _ _ _ Hspike). cbn. repeat split.
Qed.


Lemma C1_spike_y_from_vertical_z_from_horizontal_witness :
  0 < uvNoise (vertexShader (flatNoise 0) vec2.zero 10 1.2 0
                 (vec3.mk 0.8 0 0) (vec3.mk 1 0 0) vec2.zero)
  /\ (let out := pos (vertexShader (flatNoise 0) vec2.zero 10 1.2 0
                        (vec3.mk 0.8 0 0) (vec3.mk 1 0 0) vec2.zero) in
      vec3.y out = cos (angleV' (flatNoise 0) vec2.zero 10 1.2 0 (vec3.mk 0.8 0 0) (vec3.mk 1 0 0))
                   * vLength (flatNoise 0) vec2.zero 10 1.2 0 (vec3.mk 0.8 0 0) (vec3.mk 1 0 0)
      /\ vec3.z out = sin (angleH' (flatNoise 0) vec2.zero 10 1.2 (vec3.mk 0.8 0 0) (vec3.mk 1 0 0))
                      * hLength (flatNoise 0) 10 1.2 (vec3.mk 0.8 0 0) (vec3.mk 1 0 0)
      /\ vec3.x out = cos (angleH' (flatNoise 0) vec2.zero 10 1.2 (vec3.mk 0.8 0 0) (vec3.mk 1 0 0))
                      * hLength (flatNoise 0) 10 1.2 (vec3.mk 0.8 0 0) (vec3.mk 1 0 0)).
Proof.
  assert (H : 0 < uvNoise (vertexShader (flatNoise 0) vec2.zero 10 1.2 0
                 (vec3.mk 0.8 0 0) (vec3.mk 1 0 0) vec2.zero)).
  { cbn. unfold flatNoise. lra. }
  split; [ exact H | ].
  exact (C1_spike_y_from_vertical_z_from_horizontal (flatNoise 0) vec2.zero 10 1.2 0
           (vec3.mk 0.8 0 0) (vec3.mk 1 0 0) vec2.zero H).
Defined.

Lemma equator_extruded :
  extruded (flatNoise 0) 10 1.2 (vec3.mk 0.8 0 0) (vec3.mk 1 0 0) = vec3.mk 0.878 0 0.
Proof.
  unfold extruded, noiseScalar, flatNoise, vec3.add, vec3.scale. cbn. f_equal; lra.
Qed.

Lemma equator_angleH' :
  angleH' (flatNoise 0) vec2.zero 10 1.2 (vec3.mk 0.8 0 0) (vec3.mk 1 0 0) = 0.
Proof.
  unfold angleH'. rewrite equator_extruded. cbn.
  rewrite atan2_pos_x_axis by lra. ring.
Qed.

Lemma equator_hLength :
  hLength (flatNoise 0) 10 1.2 (vec3.mk 0.8 0 0) (vec3.mk 1 0 0) = 0.878.
Proof.
  unfold hLength. rewrite equator_extruded. cbn. unfold length2.
  replace (0.878 * 0.878 + 0 * 0) with (0.878 * 0.878) by lra.
  apply sqrt_square. lra.
Qed.

Lemma equator_correctedZ :
  correctedZ (flatNoise 0) vec2.zero 10 1.2 (PI / 2) (vec3.mk 0.8 0 0) (vec3.mk 1 0 0)
  = -0.878.
Proof.
  unfold correctedZ. rewrite equator_angleH', equator_hLength.
  replace (0 - PI / 2) with (- (PI / 2)) by ring.
  rewrite sin_neg, sin_PI2. lra.
Qed.

(** C1 (counterexample): on that spike the shader writes z = 0, the horizontal
    value, where the vertical polar form gives sin(angleV') * vLength = -0.878. *)
Lemma C1_counterexample :
  0 < uvNoise (vertexShader (flatNoise 0) vec2.zero 10 1.2 (PI / 2)
                 (vec3.mk 0.8 0 0) (vec3.mk 1 0 0) vec2.zero)
  /\ vec3.z (pos (vertexShader (flatNoise 0) vec2.zero 10 1.2 (PI / 2)
                    (vec3.mk 0.8 0 0) (vec3.mk 1 0 0) vec2.zero)) = 0
  /\ sin (angleV' (flatNoise 0) vec2.zero 10 1.2 (PI / 2) (vec3.mk 0.8 0 0) (vec3.mk 1 0 0))
     * vLength (flatNoise 0) vec2.zero 10 1.2 (PI / 2) (vec3.mk 0.8 0 0) (vec3.mk 1 0 0)
     = -0.878.
Proof.
  assert (Hspike : 0 < noiseScalar (flatNoise 0) 10 1.2 (vec3.mk 0.8 0 0)).
  { unfold noiseScalar, flatNoise. lra. }
  split; [ rewrite vertexShader_uvNoise; exact Hspike | ].
  split.
  - rewrite (vertexShader_spike _ _ _ _ _ _ _ _ Hspike). cbn.
    rewrite equator_angleH', sin_0. ring.
  - unfold angleV', vLength. rewrite equator_correctedZ, equator_extruded. cbn.
    rewrite atan2_neg_y_axis by lra.
    replace (- (PI / 2) - 0 * intensity (flatNoise 0) 10 1.2 (vec3.mk 0.8 0 0))
      with (- (PI / 2)) by ring.
    rewrite sin_neg, sin_PI2. unfold length2.
    replace (0 * 0 + -0.878 * -0.878) with (0.878 * 0.878) by lra.
    rewrite sqrt_square by lra. lra.
Qed.

(** C2: a vertex whose uvNoise = noise4D(position * spikeDetail, 10) *
    spikeLength + (spikeLength - 1) is at most 0 is moved to
    position + normal * (uvNoise * 0.39) and nothing else, whatever the impulse
    and the scene rotation. *)
Theorem C2_flush_vertex_radial_extrusion_only
    noise impulse detail len rot position normal uv :
  noise (vec4.of_vec3 (vec3.scale position detail) 10) * len + (len - 1) <= 0 ->
  uvNoise (vertexShader noise impulse detail len rot position normal uv)
  = noise (vec4.of_vec3 (vec3.scale position detail) 10) * len + (len - 1)
  /\ pos (vertexShader noise impulse detail len rot position normal uv)
     = vec3.add position
         (vec3.scale normal
            (uvNoise (vertexShader noise impulse detail len rot position normal uv) * 0.39)).
Proof.
  intros Hflush. split; [ reflexivity | ].
  rewrite vertexShader_flush by exact Hflush. reflexivity.
Qed.

Lemma C2_flush_vertex_radial_extrusion_only_witness :
  flatNoise (-0.5) (vec4.of_vec3 (vec3.scale (vec3.mk 0.8 0 0) 10) 10) * 1 + (1 - 1) <= 0
  /\ uvNoise (vertexShader (flatNoise (-0.5)) (vec2.mk 0.3 0.2) 10 1 2
                (vec3.mk 0.8 0 0) (vec3.mk 1 0 0) vec2.zero)
     = flatNoise (-0.5) (vec4.of_vec3 (vec3.scale (vec3.mk 0.8 0 0) 10) 10) * 1 + (1 - 1)
  /\ pos (vertexShader (flatNoise (-0.5)) (vec2.mk 0.3 0.2) 10 1 2
            (vec3.mk 0.8 0 0) (vec3.mk 1 0 0) vec2.zero)
     = vec3.add (vec3.mk 0.8 0 0)
         (vec3.scale (vec3.mk 1 0 0)
            (uvNoise (vertexShader (flatNoise (-0.5)) (vec2.mk 0.3 0.2) 10 1 2
                        (vec3.mk 0.8 0 0) (vec3.mk 1 0 0) vec2.zero) * 0.39)).
Proof.
  assert (H : flatNoise (-0.5) (vec4.of_vec3 (vec3.scale (vec3.mk 0.8 0 0) 10) 10) * 1
              + (1 - 1) <= 0) by (unfold flatNoise; lra).
  split; [ exact H | ].
  exact (C2_flush_vertex_radial_extrusion_only (flatNoise (-0.5)) (vec2.mk 0.3 0.2) 10 1 2
           (vec3.mk 0.8 0 0) (vec3.mk 1 0 0) vec2.zero H).
Defined.

(** C3: with impulse (0,0) the vertex stage gives the same result for any two
    values of sceneRotationY, for every vertex, protruding or not. *)
Theorem C3_zero_impulse_independent_of_scene_rotation
    noise detail len rot1 rot2 position normal uv :
  vertexShader noise (vec2.mk 0 0) detail len rot1 position normal uv
  = vertexShader noise (vec2.mk 0 0) detail len rot2 position normal uv.
Proof.
  unfold vertexShader. cbv zeta.
  destruct (Rlt_dec 0 _) as [Hspike | Hflush]; [ | reflexivity ].
  f_equal. cbn [vec2.x vec2.y]. f_equal.
  match goal with
  | |- cos (atan2 ?z1 ?y - 0 * ?i) * _ = cos (atan2 ?z2 ?y - 0 * ?i) * _ =>
      replace (atan2 z1 y - 0 * i) with (atan2 z1 y) by ring;
      replace (atan2 z2 y - 0 * i) with (atan2 z2 y) by ring
  end.
  now rewrite !cos_atan2_length.
Qed.

(** ** The Shading Model *)

(** C5 (as amended): the fragment stage computes n = noise3D(uv * 6,
    time * 0.02) * 0.5 + 0.5, color = mix(A, B, n), darkness = uvNoise /
    spikeLength + 1 and gives color * (sine * 0.6 + 0.4) * darkness with alpha
    1, where the banding factor is sine = sin(uv.x * 3.14): the literal 3.14,
    not PI. *)
Theorem C5_shading_with_literal_314 noise3 A B time len uv uvN :
  let n := noise3 (vec3.mk (vec2.x uv * 6) (vec2.y uv * 6) (time * 0.02)) * 0.5 + 0.5 in
  let color := mix A B n in
  let sine := sin (vec2.x uv * 3.14) in
  let darkness := uvN / len + 1 in
  fragmentShader noise3 A B time len uv uvN
  = vec4.mk (vec3.x color * (sine * 0.6 + 0.4) * darkness)
            (vec3.y color * (sine * 0.6 + 0.4) * darkness)
            (vec3.z color * (sine * 0.6 + 0.4) * darkness)
            1
  /\ vec3.x color = vec3.x A * (1 - n) + vec3.x B * n
  /\ vec3.y color = vec3.y A * (1 - n) + vec3.y B * n
  /\ vec3.z color = vec3.z A * (1 - n) + vec3.z B * n
  /\ fragmentShader noise3 A B time len uv uvN
     = shade noise3 sine A B time len uv uvN.
Proof.
  intros n color sine darkness.
  unfold fragmentShader, shade. fold n. fold color. fold sine. fold darkness.
  unfold vec4.of_vec3, vec3.scale. cbn [vec3.x vec3.y vec3.z].
  repeat split.
Qed.

Lemma mix_same (c : vec3.t) (t : R) : mix c c t = c.
Proof. destruct c. unfold mix, vec3.add, vec3.scale. cbn. f_equal; ring. Qed.

(** C5 (counterexample): at uv = (1, 0) with both palette colours white,
    uvNoise = 0 and spikeLength = 1, the banding factor sin(uv.x * PI) gives
    the colour 0.4, and the fragment stage gives a brighter one. *)
Lemma C5_counterexample :
  shade (fun _ => 0) (sin (1 * PI)) white white 0 1 (vec2.mk 1 0) 0
  = vec4.mk 0.4 0.4 0.4 1
  /\ 0.4 < vec4.x (fragmentShader (fun _ => 0) white white 0 1 (vec2.mk 1 0) 0).
Proof.
  split.
  - unfold shade. rewrite mix_same. rewrite Rmult_1_l, sin_PI.
    unfold white, vec3.scale, vec4.of_vec3. cbn. f_equal; lra.
  - unfold fragmentShader. rewrite mix_same. cbn.
    replace (1 * 3.14) with 3.14 by lra. pose proof sin_314_pos. lra.
Qed.

(** ** Statements that leave part of the world alone *)

Lemma keeps_ret {X A} (f : World -> X) (a : A) : keeps f (ret a).
Proof. now intros w. Qed.

Lemma keeps_throw {X A} (f : World -> X) : keeps f (@throw A).
Proof. now intros w. Qed.

Lemma keeps_gets {X A} (f : World -> X) (g : World -> A) : keeps f (gets g).
Proof. now intros w. Qed.

Lemma keeps_modify {X} (f : World -> X) (g : World -> World) :
  (forall w, f (g w) = f w) -> keeps f (modify g).
Proof. intros H w. apply H. Qed.

Lemma keeps_bind {X A B} (f : World -> X) (c : JS A) (k : A -> JS B) :
  keeps f c -> (forall a, keeps f (k a)) -> keeps f (bind c k).
Proof.
  intros Hc Hk w. unfold bind. specialize (Hc w).
  destruct (c w) as [[a | ] w']; cbn in *; [ | exact Hc ].
  now rewrite Hk.
Qed.

Lemma keeps_when {X} (f : World -> X) (b : bool) (c : JS unit) :
  keeps f c -> keeps f (when b c).
Proof. destruct b; [ trivial | intros _; apply keeps_ret ]. Qed.

Create HintDb keeps.
#[local] Hint Resolve keeps_ret keeps_throw keeps_gets keeps_bind keeps_when : keeps.

Ltac keeps_step :=
  first
    [ apply keeps_bind; [ | intros ? ]
    | apply keeps_ret | apply keeps_throw | apply keeps_gets
    | apply keeps_when
    | apply keeps_modify; intros [? ? ? ? ? ? ? ? ? ? ?]; reflexivity
    | match goal with |- keeps _ (match ?x with _ => _ end) => destruct x end
    | match goal with |- keeps _ (let (_, _) := ?x in _) => destruct x end ].

Ltac keeps_auto := repeat keeps_step; eauto with keeps.

Section SketchFacts.
Variable seedRandom : Z -> nat -> R.
Variable mathRandom : nat -> R.
Variable palettes : list Palette.
Variable tableDraws : nat.

Lemma keeps_setSeed {X} (f : World -> X) seed :
  (forall g w, f (set_currentRandom g w) = f w) ->
  (forall n w, f (set_mathRandomCalls n w) = f w) ->
  keeps f (setSeed tableDraws seed).
Proof.
  intros Hg Hn. destruct seed; intros w; [ apply Hg | ].
  cbn. now rewrite Hn, Hg.
Qed.

Lemma keeps_value {X} (f : World -> X) :
  (forall g w, f (set_currentRandom g w) = f w) ->
  (forall n w, f (set_mathRandomCalls n w) = f w) ->
  keeps f (value seedRandom mathRandom).
Proof.
  intros Hg Hn w. unfold value, bind, gets, modify, ret.
  destruct (currentRandom w); cbn; [ apply Hn | apply Hg ].
Qed.

Lemma keeps_range {X} (f : World -> X) lo hi :
  (forall g w, f (set_currentRandom g w) = f w) ->
  (forall n w, f (set_mathRandomCalls n w) = f w) ->
  keeps f (range seedRandom mathRandom lo hi).
Proof.
  intros Hg Hn. unfold range. apply keeps_bind; [ now apply keeps_value | intros ? ].
  apply keeps_ret.
Qed.

Lemma keeps_pick {X A} (f : World -> X) (array : list A) :
  (forall g w, f (set_currentRandom g w) = f w) ->
  (forall n w, f (set_mathRandomCalls n w) = f w) ->
  keeps f (pick seedRandom mathRandom array).
Proof.
  intros Hg Hn. unfold pick, rangeFloor.
  destruct array; [ apply keeps_ret | ].
  apply keeps_bind; [ | intros ?; apply keeps_ret ].
  apply keeps_bind; [ now apply keeps_range | intros ?; apply keeps_ret ].
Qed.

Lemma createDefaults_keeps_outside :
  keeps outsideDefaults (createDefaults seedRandom mathRandom palettes tableDraws).
Proof.
  unfold createDefaults.
  repeat (apply keeps_bind;
          [ first [ apply keeps_pick | apply keeps_range | apply keeps_setSeed
                  | apply keeps_modify ] | intros ? ]);
    try apply keeps_modify;
    intros; match goal with w : World |- _ => destruct w end; reflexivity.
Qed.

Lemma createDefaults_keeps_flags :
  keeps flags (createDefaults seedRandom mathRandom palettes tableDraws).
Proof.
  intros w. pose proof (createDefaults_keeps_outside w) as H.
  unfold outsideDefaults in H. unfold flags. congruence.
Qed.

Lemma createMesh_keeps_flags reset :
  keeps flags (createMesh seedRandom mathRandom palettes tableDraws reset).
Proof.
  unfold createMesh, scene_remove, scene_add.
  apply keeps_bind; [ apply keeps_gets | intros m ].
  apply keeps_bind; [ destruct m; keeps_auto | intros _ ].
  apply keeps_bind; [ apply keeps_when, createDefaults_keeps_flags | intros _ ].
  keeps_auto.
Qed.

Lemma updateUniforms_keeps_data time : keeps data (updateUniforms time).
Proof. unfold updateUniforms. keeps_auto. Qed.

Lemma rotateScene_keeps_data : keeps data rotateScene.
Proof. unfold rotateScene. keeps_auto. Qed.

Lemma bind_returned {A B} (c : JS A) (k : A -> JS B) w a w' :
  c w = (Returned a, w') -> bind c k w = k a w'.
Proof. intros H. unfold bind. now rewrite H. Qed.

Lemma snd_bind {A B} (c : JS A) (k : A -> JS B) w :
  snd (bind c k w)
  = match fst (c w) with
    | Returned a => snd (k a (snd (c w)))
    | Thrown => snd (c w)
    end.
Proof. unfold bind. now destruct (c w) as [[a | ] w']. Qed.

Lemma snd_bind_modify {B} (f : World -> World) (k : unit -> JS B) w :
  snd (bind (modify f) k w) = snd (k tt (f w)).
Proof. reflexivity. Qed.

Lemma recreateMesh_unfold w :
  recreateMesh seedRandom mathRandom palettes tableDraws w
  = bind (when (shouldReset (data w)) (resetBranch seedRandom mathRandom palettes tableDraws))
         (fun _ => when (shouldUpdate (data w)) (updateBranch seedRandom mathRandom palettes tableDraws)) w.
Proof. reflexivity. Qed.

Lemma resetBranch_flags w :
  flags (snd (resetBranch seedRandom mathRandom palettes tableDraws w)) = (false, false).
Proof.
  unfold resetBranch. rewrite !snd_bind_modify, createMesh_keeps_flags.
  now destruct w as [[? ? ? ? ?] ? ? ? ? ? ? ? ? ? ?].
Qed.

Lemma updateBranch_flags w :
  shouldReset (data w) = false ->
  flags (snd (updateBranch seedRandom mathRandom palettes tableDraws w)) = (false, false).
Proof.
  intros H. unfold updateBranch. rewrite snd_bind_modify, createMesh_keeps_flags.
  destruct w as [[? ? ? ? ?] ? ? ? ? ? ? ? ? ? ?]. cbn in *. now subst.
Qed.

Lemma recreateMesh_clears_flags w :
  flags (snd (recreateMesh seedRandom mathRandom palettes tableDraws w)) = (false, false).
Proof.
  rewrite recreateMesh_unfold, snd_bind.
  destruct (shouldReset (data w)) eqn:Hr; cbn [when].
  - pose proof (resetBranch_flags w) as H1.
    destruct (fst (resetBranch seedRandom mathRandom palettes tableDraws w)); [ | exact H1 ].
    destruct (shouldUpdate (data w)); cbn [when]; [ | exact H1 ].
    apply updateBranch_flags. unfold flags in H1. congruence.
  - cbn [ret fst snd]. destruct (shouldUpdate (data w)) eqn:Hu; cbn [when].
    + now apply updateBranch_flags.
    + cbn. unfold flags. now rewrite Hr, Hu.
Qed.

(** C10: after every run of the render callback both data.shouldReset and
    data.shouldUpdate are false, whatever the two flags were when the frame
    began (and also when the callback throws on its way). *)
Theorem C10_render_clears_both_flags time w :
  shouldReset (data (snd (render seedRandom mathRandom palettes tableDraws time w))) = false
  /\ shouldUpdate (data (snd (render seedRandom mathRandom palettes tableDraws time w))) = false.
Proof.
  enough (H : flags (snd (render seedRandom mathRandom palettes tableDraws time w)) = (false, false))
    by (unfold flags in H; split; congruence).
  pose proof (recreateMesh_clears_flags w) as H0.
  unfold render. rewrite snd_bind.
  destruct (fst (recreateMesh seedRandom mathRandom palettes tableDraws w)); [ | exact H0 ].
  rewrite snd_bind.
  assert (H1 : flags (snd (rotateScene (snd (recreateMesh seedRandom mathRandom palettes tableDraws w))))
               = (false, false)).
  { unfold flags. rewrite rotateScene_keeps_data. exact H0. }
  destruct (fst (rotateScene _)); [ | exact H1 ].
  unfold flags. rewrite updateUniforms_keeps_data. exact H1.
Qed.

End SketchFacts.

(** ** The Impulse/Input Tracker *)

Lemma Int_part_unit (r : R) : 0 <= r < 1 -> Int_part r = 0%Z.
Proof.
  intros [H0 H1]. symmetry. apply Int_part_spec. cbn. lra.
Qed.

Lemma js_rem_below (a b : R) : 0 < b -> 0 <= a < b -> js_rem a b = a.
Proof.
  intros Hb [H0 H1]. unfold js_rem, trunc.
  assert (Hq : 0 <= a / b < 1).
  { split.
    - apply Rmult_le_pos; [ lra | left; now apply Rinv_0_lt_compat ].
    - apply (Rmult_lt_reg_r b); [ exact Hb | ].
      replace (a / b * b) with a by (field; lra). lra. }
  destruct (Rle_dec 0 (a / b)); [ | lra ].
  rewrite Int_part_unit by exact Hq. cbn. ring.
Qed.

Lemma Int_part_succ (r : R) : Int_part (r + 1) = (Int_part r + 1)%Z.
Proof.
  symmetry. apply Int_part_spec. rewrite plus_IZR.
  destruct (base_Int_part r). cbn. lra.
Qed.

Lemma js_rem_nonpos (a : R) : a <= 0 -> js_rem a 2 <= 0.
Proof.
  intros Ha. unfold js_rem, trunc.
  destruct (Rle_dec 0 (a / 2)) as [Hq | Hq].
  - assert (a = 0) by lra. subst a.
    replace (0 / 2) with 0 by lra. rewrite (Int_part_unit 0) by lra. cbn. lra.
  - rewrite opp_IZR. destruct (base_Int_part (- (a / 2))) as [Hle _]. lra.
Qed.

Lemma js_rem_period (a : R) : 0 <= a -> js_rem (a + 2) 2 = js_rem a 2.
Proof.
  intros Ha. unfold js_rem, trunc.
  destruct (Rle_dec 0 ((a + 2) / 2)); [ | lra ].
  destruct (Rle_dec 0 (a / 2)); [ | lra ].
  replace ((a + 2) / 2) with (a / 2 + 1) by lra.
  rewrite Int_part_succ, plus_IZR. lra.
Qed.

Lemma quotient_le (rx c : R) : rx + PI / 2 <= c * PI -> (rx + PI / 2) / PI <= c.
Proof.
  intros H. pose proof PI_RGT_0 as Hpi.
  apply (Rmult_le_reg_r PI); [ exact Hpi | ].
  replace ((rx + PI / 2) / PI * PI) with (rx + PI / 2) by (field; lra). exact H.
Qed.

Lemma quotient_lt (rx c : R) : rx + PI / 2 < c * PI -> (rx + PI / 2) / PI < c.
Proof.
  intros H. pose proof PI_RGT_0 as Hpi.
  apply (Rmult_lt_reg_r PI); [ exact Hpi | ].
  replace ((rx + PI / 2) / PI * PI) with (rx + PI / 2) by (field; lra). exact H.
Qed.

Lemma quotient_gt (rx c : R) : c * PI < rx + PI / 2 -> c < (rx + PI / 2) / PI.
Proof.
  intros H. pose proof PI_RGT_0 as Hpi.
  apply (Rmult_lt_reg_r PI); [ exact Hpi | ].
  replace ((rx + PI / 2) / PI * PI) with (rx + PI / 2) by (field; lra). exact H.
Qed.

Lemma quotient_ge (rx c : R) : c * PI <= rx + PI / 2 -> c <= (rx + PI / 2) / PI.
Proof.
  intros H. pose proof PI_RGT_0 as Hpi.
  apply (Rmult_le_reg_r PI); [ exact Hpi | ].
  replace ((rx + PI / 2) / PI * PI) with (rx + PI / 2) by (field; lra). exact H.
Qed.

(** The remainder of a division by 2, as the code computes it: an integer
    number of twos away from the dividend, and on the dividend's side of 0. *)
Lemma js_rem_nonneg_spec (a : R) :
  0 <= a -> 0 <= js_rem a 2 < 2 /\ exists k : Z, a = 2 * IZR k + js_rem a 2.
Proof.
  intros Ha. unfold js_rem, trunc.
  destruct (Rle_dec 0 (a / 2)); [ | lra ].
  destruct (base_Int_part (a / 2)) as [Hle Hgt].
  split; [ lra | ]. exists (Int_part (a / 2)). ring.
Qed.

Lemma js_rem_nonpos_spec (a : R) :
  a <= 0 -> -2 < js_rem a 2 <= 0 /\ exists k : Z, a = 2 * IZR k + js_rem a 2.
Proof.
  intros Ha. unfold js_rem, trunc.
  destruct (Rle_dec 0 (a / 2)) as [Hq | Hq].
  - assert (a = 0) by lra. subst a.
    replace (0 / 2) with 0 by lra. rewrite (Int_part_unit 0) by lra.
    split; [ cbn; lra | ]. exists 0%Z. cbn. ring.
  - destruct (base_Int_part (- (a / 2))) as [Hle Hgt]. rewrite opp_IZR.
    split; [ lra | ]. exists (- Int_part (- (a / 2)))%Z. rewrite opp_IZR. ring.
Qed.

Lemma two_turns_quotient : (2 * PI + PI / 2) / PI = 0.5 + 2.
Proof. pose proof PI_neq0. field_simplify_eq; [ lra | exact H ]. Qed.

Lemma three_turns_quotient : (3 * PI + PI / 2) / PI = 1.5 + 2.
Proof. pose proof PI_neq0. field_simplify_eq; [ lra | exact H ]. Qed.

Lemma upright_quotient : (0 + PI / 2) / PI = 0.5.
Proof. pose proof PI_neq0. field_simplify_eq; [ lra | exact H ]. Qed.

Lemma upside_down_quotient : (PI + PI / 2) / PI = 1.5.
Proof. pose proof PI_neq0. field_simplify_eq; [ lra | exact H ]. Qed.

(** C7: the drag direction is -1 when ((sceneRotationX + PI/2) / PI) % 2 > 1
    and +1 otherwise, where x % 2 is the remainder of x by 2 on the side of x:
    x less an integer number of twos, in [0, 2) for x >= 0 and in (-2, 0] for
    x <= 0. It is +1 at sceneRotationX = 0; at sceneRotationX = PI the
    remainder is 1.5 > 1, which selects -1; at 2 PI the quotient 2.5 leaves the
    remainder 0.5 and the direction is +1 again, and at 3 PI it is -1. *)
Theorem C7_direction_sign :
  (forall rotationX,
     direction rotationX
     = if Rlt_dec 1 (js_rem ((rotationX + PI / 2) / PI) 2) then -1 else 1)
  /\ (forall a, 0 <= a ->
        0 <= js_rem a 2 < 2 /\ exists k : Z, a = 2 * IZR k + js_rem a 2)
  /\ (forall a, a <= 0 ->
        -2 < js_rem a 2 <= 0 /\ exists k : Z, a = 2 * IZR k + js_rem a 2)
  /\ direction 0 = 1
  /\ js_rem ((PI + PI / 2) / PI) 2 = 1.5
  /\ direction PI = -1
  /\ js_rem ((2 * PI + PI / 2) / PI) 2 = 0.5
  /\ direction (2 * PI) = 1
  /\ direction (3 * PI) = -1.
Proof.
  assert (H0 : js_rem ((0 + PI / 2) / PI) 2 = 0.5).
  { rewrite upright_quotient. apply js_rem_below; lra. }
  assert (H1 : js_rem ((PI + PI / 2) / PI) 2 = 1.5).
  { rewrite upside_down_quotient. apply js_rem_below; lra. }
  assert (H2 : js_rem ((2 * PI + PI / 2) / PI) 2 = 0.5).
  { rewrite two_turns_quotient, js_rem_period by lra. apply js_rem_below; lra. }
  assert (H3 : js_rem ((3 * PI + PI / 2) / PI) 2 = 1.5).
  { rewrite three_turns_quotient, js_rem_period by lra. apply js_rem_below; lra. }
  split; [ reflexivity | ].
  split; [ exact js_rem_nonneg_spec | ].
  split; [ exact js_rem_nonpos_spec | ].
  split; [ unfold direction; rewrite H0; destruct (Rlt_dec 1 0.5); [ lra | reflexivity ] | ].
  split; [ exact H1 | ].
  split; [ unfold direction; rewrite H1; destruct (Rlt_dec 1 1.5); [ reflexivity | lra ] | ].
  split; [ exact H2 | ].
  split; [ unfold direction; rewrite H2; destruct (Rlt_dec 1 0.5); [ lra | reflexivity ] | ].
  unfold direction. rewrite H3. destruct (Rlt_dec 1 1.5); [ reflexivity | lra ].
Qed.

Lemma direction_upright : direction 0 = 1.
Proof.
  unfold direction. rewrite upright_quotient, js_rem_below by lra.
  destruct (Rlt_dec 1 0.5); [ lra | reflexivity ].
Qed.

(** C6: while dragging, a move event at normalized position p with anchor
    (the last recorded position) adds direction * (p.x - anchor.x) * 0.5 to
    impulse.x, subtracts (p.y - anchor.y) * 0.5 from impulse.y and makes p the
    anchor; so from impulse (0,0) with sceneRotationX = 0 a move from (0,0) to
    (0.1, 0) gives impulse (0.05, 0). *)
Theorem C6_drag_move_accumulates_impulse (e : Event) (w : World)
    (history : list vec2.t) (anchor p : vec2.t) :
  isMouseDown w = true ->
  mouseList w = history ++ [anchor] ->
  fst (getInputPosition e w) = Returned p ->
  let w' := snd (onMouseMove e w) in
  fst (onMouseMove e w) = Returned tt
  /\ vec2.x (currentImpulse w')
     = vec2.x (currentImpulse w)
       + direction (vec2.x (rotation (scene w))) * (vec2.x p - vec2.x anchor) * 0.5
  /\ vec2.y (currentImpulse w')
     = vec2.y (currentImpulse w) - (vec2.y p - vec2.y anchor) * 0.5
  /\ mouseList w' = history ++ [anchor; p]
  /\ (currentImpulse w = vec2.mk 0 0 ->
      vec2.x (rotation (scene w)) = 0 ->
      anchor = vec2.mk 0 0 ->
      p = vec2.mk 0.1 0 ->
      currentImpulse w' = vec2.mk 0.05 0).
Proof.
  intros Hdown Hlist Hp w'.
  destruct w as [d g n sc m mc down ml ci iw ih]. cbn in Hdown, Hlist. subst down ml.
  unfold getInputPosition in Hp.
  assert (Hmove : onMouseMove e (mkWorld d g n sc m mc true (history ++ [anchor]) ci iw ih)
          = (Returned tt,
             mkWorld d g n sc m mc true ((history ++ [anchor]) ++ [p])
               (vec2.mk (vec2.x ci + direction (vec2.x (rotation sc))
                                     * (vec2.x p - vec2.x anchor) * 0.5)
                        (vec2.y ci - (vec2.y p - vec2.y anchor) * 0.5)) iw ih)).
  { unfold onMouseMove, getInputPosition in *.
    destruct (touches e) as [ | touch rest ];
      cbn in Hp |- *; injection Hp as <-; rewrite last_last; reflexivity. }
  subst w'. rewrite Hmove. cbn [fst snd currentImpulse mouseList scene vec2.x vec2.y].
  repeat split.
  - now rewrite <- app_assoc.
  - intros Hi Hrot Ha Hq. subst ci anchor p. rewrite Hrot, direction_upright.
    cbn. f_equal; lra.
Qed.

Lemma C6_drag_move_accumulates_impulse_witness :
  isMouseDown (snd (onMouseDown pressCentre sampleWorld)) = true
  /\ mouseList (snd (onMouseDown pressCentre sampleWorld))
     = [] ++ [vec2.mk (500 / 1000 * 2 - 1) (- (500 / 1000) * 2 + 1)]
  /\ fst (getInputPosition moveRight (snd (onMouseDown pressCentre sampleWorld)))
     = Returned (vec2.mk (550 / 1000 * 2 - 1) (- (500 / 1000) * 2 + 1))
  /\ currentImpulse
       (snd (onMouseMove moveRight (snd (onMouseDown pressCentre sampleWorld))))
     = vec2.mk 0.05 0.
Proof.
  assert (Hdown : isMouseDown (snd (onMouseDown pressCentre sampleWorld)) = true)
    by reflexivity.
  assert (Hlist : mouseList (snd (onMouseDown pressCentre sampleWorld))
                  = [] ++ [vec2.mk (500 / 1000 * 2 - 1) (- (500 / 1000) * 2 + 1)])
    by reflexivity.
  assert (Hp : fst (getInputPosition moveRight (snd (onMouseDown pressCentre sampleWorld)))
               = Returned (vec2.mk (550 / 1000 * 2 - 1) (- (500 / 1000) * 2 + 1)))
    by reflexivity.
  repeat (split; [ assumption | ]).
  apply (C6_drag_move_accumulates_impulse moveRight _ [] _ _ Hdown Hlist Hp).
  - reflexivity.
  - reflexivity.
  - f_equal; lra.
  - f_equal; lra.
Defined.

(** ** The rebuild triggers *)

Section Rebuild.
Variable seedRandom : Z -> nat -> R.
Variable mathRandom : nat -> R.
Variable palettes : list Palette.
Variable tableDraws : nat.

Lemma rotateScene_run w :
  rotateScene w
  = (Returned tt,
     set_scene (set_rotation
                  (vec2.mk (vec2.x (rotation (scene w)) + vec2.y (currentImpulse w) * 0.9)
                           (vec2.y (rotation (scene w))
                            + (0.003 + vec2.x (currentImpulse w) * 0.9))))
       (set_currentImpulse (vec2.scale (currentImpulse w) 0.9) w)).
Proof. now destruct w as [? ? ? [[? ?] ?] ? ? ? ? [? ?] ? ?]. Qed.

Lemma updateUniforms_run time w m :
  mesh w = Some m ->
  updateUniforms time w
  = (Returned tt,
     set_mesh (Some (mkMesh (mesh_id m)
       (mkUniforms time (u_colorA (uniforms m)) (u_colorB (uniforms m)) TheCurrentImpulse
          (u_spikeCount (uniforms m)) (u_spikeLength (uniforms m))
          (vec2.y (rotation (scene w)))))) w).
Proof.
  intros Hm. unfold updateUniforms, bind, gets, modify. now rewrite Hm.
Qed.

(** A rebuild without reset: the old mesh leaves the scene, a fresh one with
    the current parameters enters it. *)
Lemma createMesh_update_run w p :
  palette (data w) = Some p ->
  createMesh seedRandom mathRandom palettes tableDraws false w
  = (Returned tt,
     set_scene (set_children
                  (match mesh w with
                   | Some old =>
                       filter (fun c => negb (Nat.eqb c (mesh_id old))) (children (scene w))
                   | None => children (scene w)
                   end ++ [meshesCreated w]))
       (set_mesh (Some (mkMesh (meshesCreated w) (newUniforms (data w) p)))
          (set_meshesCreated (S (meshesCreated w)) w))).
Proof.
  intros Hp. destruct w as [d g n [r c] m mc down ml ci iw ih]. cbn in Hp.
  unfold createMesh, scene_remove, scene_add, bind, gets, modify, when, ret.
  destruct m as [old | ]; cbn; rewrite Hp; reflexivity.
Qed.

Lemma recreateMesh_idle w :
  shouldReset (data w) = false -> shouldUpdate (data w) = false ->
  recreateMesh seedRandom mathRandom palettes tableDraws w = (Returned tt, w).
Proof.
  intros Hr Hu. destruct w as [[su sr p sl sd] g n sc m mc down ml ci iw ih].
  cbn in Hr, Hu. subst sr su. reflexivity.
Qed.

Lemma recreateMesh_update w :
  shouldReset (data w) = false -> shouldUpdate (data w) = true ->
  recreateMesh seedRandom mathRandom palettes tableDraws w
  = createMesh seedRandom mathRandom palettes tableDraws false
      (set_data (set_shouldUpdate false) w).
Proof.
  intros Hr Hu. destruct w as [[su sr p sl sd] g n sc m mc down ml ci iw ih].
  cbn in Hr, Hu. subst sr su. reflexivity.
Qed.

Lemma createMesh_false_keeps_params :
  keeps params (createMesh seedRandom mathRandom palettes tableDraws false).
Proof. unfold createMesh, scene_remove, scene_add. keeps_auto. Qed.


Lemma rotate_update_keeps_params time :
  keeps params (rotateScene ;; updateUniforms time).
Proof. unfold rotateScene, updateUniforms. keeps_auto. Qed.


Lemma recreateMesh_no_reset_keeps {X} (f : World -> X) w :
  keeps f (createMesh seedRandom mathRandom palettes tableDraws false) ->
  (forall w0, f (set_data (set_shouldUpdate false) w0) = f w0) ->
  shouldReset (data w) = false ->
  f (snd (recreateMesh seedRandom mathRandom palettes tableDraws w)) = f w.
Proof.
  intros Hk Hf Hr. destruct (shouldUpdate (data w)) eqn:Hu.
  - rewrite recreateMesh_update, Hk by assumption. apply Hf.
  - now rewrite recreateMesh_idle.
Qed.

Lemma render_no_reset_keeps {X} (f : World -> X) time w :
  keeps f (createMesh seedRandom mathRandom palettes tableDraws false) ->
  keeps f (rotateScene ;; updateUniforms time) ->
  (forall w0, f (set_data (set_shouldUpdate false) w0) = f w0) ->
  shouldReset (data w) = false ->
  f (snd (render seedRandom mathRandom palettes tableDraws time w)) = f w.
Proof.
  intros Hk Hrest Hf Hr. unfold render. rewrite snd_bind.
  pose proof (recreateMesh_no_reset_keeps f w Hk Hf Hr) as H0.
  destruct (fst (recreateMesh seedRandom mathRandom palettes tableDraws w)); [ | exact H0 ].
  now rewrite Hrest.
Qed.


End Rebuild.

(** ** The Parameter Generator *)

Lemma bind_gets {A B} (f : World -> A) (k : A -> JS B) w :
  bind (gets f) k w = k (f w) w.
Proof. reflexivity. Qed.

Lemma bind_modify {B} (f : World -> World) (k : unit -> JS B) w :
  bind (modify f) k w = k tt (f w).
Proof. reflexivity. Qed.

Lemma bind_ret {A B} (a : A) (k : A -> JS B) w : bind (ret a) k w = k a w.
Proof. reflexivity. Qed.

Lemma Int_part_index (r : R) (n : nat) :
  0 <= r < INR n -> (0 <= Int_part r)%Z /\ (Z.to_nat (Int_part r) < n)%nat.
Proof.
  intros [H0 Hn]. destruct (base_Int_part r) as [Hle Hgt].
  assert (Hz : (0 <= Int_part r)%Z).
  { apply Z.lt_succ_r, lt_IZR. rewrite succ_IZR. lra. }
  split; [ exact Hz | ].
  apply Nat2Z.inj_lt. rewrite Z2Nat.id by exact Hz.
  apply lt_IZR. rewrite <- INR_IZR_INZ. lra.
Qed.

(** A draw from [0, 1) indexes a non-empty array inside its bounds. *)
Lemma js_index_of_draw {A} (array : list A) (v : R) :
  array <> [] -> 0 <= v < 1 ->
  exists a, js_index array (Int_part (v * (INR (length array) - 0) + 0)) = Some a
            /\ In a array.
Proof.
  intros Hne [H0 H1].
  assert (Hlen : 0 < INR (length array)).
  { apply lt_0_INR. destruct array; [ contradiction | cbn; lia ]. }
  destruct (Int_part_index (v * (INR (length array) - 0) + 0) (length array))
    as [Hz Hlt]; [ nra | ].
  unfold js_index.
  destruct (Z.ltb_spec (Int_part (v * (INR (length array) - 0) + 0)) 0); [ lia | ].
  destruct (nth_error array (Z.to_nat (Int_part (v * (INR (length array) - 0) + 0))))
    as [a | ] eqn:E.
  - exists a. split; [ reflexivity | exact (nth_error_In _ _ E) ].
  - apply nth_error_None in E. lia.
Qed.

Section Generator.
Variable seedRandom : Z -> nat -> R.
Variable mathRandom : nat -> R.
Variable palettes : list Palette.
Variable tableDraws : nat.

Hypothesis seedRandom_unit : forall seed i, 0 <= seedRandom seed i < 1.
Hypothesis mathRandom_unit : forall i, 0 <= mathRandom i < 1.
Hypothesis palettes_nonempty : palettes <> [].

Lemma value_run w :
  exists v g n,
    value seedRandom mathRandom w
    = (Returned v, set_currentRandom g (set_mathRandomCalls n w))
    /\ 0 <= v < 1.
Proof.
  destruct w as [d g n sc m mc down ml ci iw ih]. unfold value.
  rewrite bind_gets. cbn [currentRandom]. destruct g as [ | s i ].
  - exists (mathRandom n), MathRandom, (S n). split; [ reflexivity | apply mathRandom_unit ].
  - exists (seedRandom s i), (Seeded s (S i)), n.
    split; [ reflexivity | apply seedRandom_unit ].
Qed.

Lemma pick_run {A} (array : list A) w :
  array <> [] ->
  exists a g n,
    pick seedRandom mathRandom array w
    = (Returned (Some a), set_currentRandom g (set_mathRandomCalls n w))
    /\ In a array.
Proof.
  intros Hne. destruct (value_run w) as (v & g & n & Ev & Hv).
  destruct (js_index_of_draw array v Hne Hv) as (a & Ea & Hin).
  exists a, g, n. split; [ | exact Hin ].
  unfold pick, rangeFloor, range. destruct array as [ | a0 rest ]; [ contradiction | ].
  rewrite (bind_returned _ _ _ _ _
             (bind_returned _ _ _ _ _ (bind_returned _ _ _ _ _ Ev))).
  unfold ret. now rewrite Ea.
Qed.

Lemma bind_setSeed_none {B} (k : unit -> JS B) w :
  bind (setSeed tableDraws None) k w
  = k tt (set_mathRandomCalls (mathRandomCalls w + tableDraws)
            (set_currentRandom MathRandom w)).
Proof. reflexivity. Qed.

(** Seeding and drawing gives the value of the seed's stream that follows the
    table draws, whatever the random module held before. *)
Lemma seeded_range_run seed lo hi w :
  bind (setSeed tableDraws (Some seed)) (fun _ => range seedRandom mathRandom lo hi) w
  = (Returned (seedRandom seed tableDraws * (hi - lo) + lo),
     set_currentRandom (Seeded seed (S tableDraws)) w).
Proof. now destruct w. Qed.

Lemma seeded_pick_run seed w :
  bind (setSeed tableDraws (Some seed)) (fun _ => pick seedRandom mathRandom palettes) w
  = (Returned (paletteOfSeed seedRandom palettes tableDraws seed),
     set_currentRandom (Seeded seed (S tableDraws)) w).
Proof.
  destruct w. unfold paletteOfSeed, pick.
  destruct palettes; [ contradiction | reflexivity ].
Qed.

Lemma paletteOfSeed_in seed :
  exists p, paletteOfSeed seedRandom palettes tableDraws seed = Some p /\ In p palettes.
Proof.
  destruct (js_index_of_draw palettes (seedRandom seed tableDraws) palettes_nonempty
              (seedRandom_unit seed tableDraws)) as (p & E & Hin).
  exists p. split; [ | exact Hin ].
  unfold paletteOfSeed. destruct palettes; [ contradiction | exact E ].
Qed.

Lemma bind_assoc_run {A B C} (c : JS A) (k : A -> JS B) (h : B -> JS C) w :
  bind (bind c k) h w = bind c (fun a => bind (k a) h) w.
Proof. unfold bind. now destruct (c w) as [[a | ] w']. Qed.

(** What one run of the generator does to the world. *)
Lemma createDefaults_run w :
  exists s1 s2 s3 g n,
    In s1 spikeSeeds /\ In s2 spikeLengthSeeds /\ In s3 colorSeeds
    /\ createDefaults seedRandom mathRandom palettes tableDraws w
       = (Returned tt,
          set_data (fun d =>
                      set_palette (paletteOfSeed seedRandom palettes tableDraws s3)
                        (set_spikeLength (lengthOfSeed seedRandom tableDraws s2)
                           (set_spikeDetail (detailOfSeed seedRandom tableDraws s1) d)))
            (set_currentRandom g (set_mathRandomCalls n w))).
Proof.
  unfold createDefaults.
  destruct (pick_run spikeSeeds w) as (s1 & g1 & n1 & E1 & In1); [ discriminate | ].
  rewrite (bind_returned _ _ _ _ _ E1).
  rewrite <- bind_assoc_run, (bind_returned _ _ _ _ _ (seeded_range_run s1 1.35 40 _)).
  rewrite bind_modify, bind_setSeed_none.
  match goal with |- context [bind (pick _ _ spikeLengthSeeds) _ ?w0] =>
    destruct (pick_run spikeLengthSeeds w0) as (s2 & g2 & n2 & E2 & In2);
      [ discriminate | ] end.
  rewrite (bind_returned _ _ _ _ _ E2).
  rewrite <- bind_assoc_run, (bind_returned _ _ _ _ _ (seeded_range_run s2 1.0 1.4 _)).
  rewrite bind_modify, bind_setSeed_none.
  match goal with |- context [bind (pick _ _ colorSeeds) _ ?w0] =>
    destruct (pick_run colorSeeds w0) as (s3 & g3 & n3 & E3 & In3);
      [ discriminate | ] end.
  rewrite (bind_returned _ _ _ _ _ E3).
  rewrite <- bind_assoc_run, (bind_returned _ _ _ _ _ (seeded_pick_run s3 _)).
  exists s1, s2, s3, (Seeded s3 (S tableDraws)), n3. repeat (split; [ assumption | ]).
  destruct w as [[? ? ? ? ?] ? ? ? ? ? ? ? ? ? ?]. reflexivity.
Qed.

Lemma range_bounds (v lo hi : R) :
  0 <= v < 1 -> lo <= hi -> lo <= v * (hi - lo) + lo <= hi.
Proof. intros [H0 H1] Hle. split; nra. Qed.

(** *** The picks of one run *)

Lemma pick_from_math {A} (array : list A) w :
  currentRandom w = MathRandom -> array <> [] ->
  pick seedRandom mathRandom array w
  = (Returned (js_index array
       (Int_part (mathRandom (mathRandomCalls w) * (INR (length array) - 0) + 0))),
     set_mathRandomCalls (S (mathRandomCalls w)) w).
Proof.
  intros Hg Hne. destruct w as [d g n sc m mc down ml ci iw ih]. cbn in Hg. subst g.
  destruct array; [ contradiction | reflexivity ].
Qed.

Lemma pick_from_seed {A} (array : list A) w seed i :
  currentRandom w = Seeded seed i -> array <> [] ->
  pick seedRandom mathRandom array w
  = (Returned (js_index array
       (Int_part (seedRandom seed i * (INR (length array) - 0) + 0))),
     set_currentRandom (Seeded seed (S i)) w).
Proof.
  intros Hg Hne. destruct w as [d g n sc m mc down ml ci iw ih]. cbn in Hg. subst g.
  destruct array; [ contradiction | reflexivity ].
Qed.

Lemma pick_next {A} (array : list A) w :
  array <> [] ->
  fst (pick seedRandom mathRandom array w)
  = Returned (js_index array
      (Int_part (nextValue seedRandom mathRandom w * (INR (length array) - 0) + 0))).
Proof.
  intros Hne. unfold nextValue. destruct (currentRandom w) as [ | seed i ] eqn:Eg.
  - now rewrite (pick_from_math array w Eg Hne).
  - now rewrite (pick_from_seed array w seed i Eg Hne).
Qed.

Lemma pick_reset {A} (array : list A) calls w :
  array <> [] ->
  fst (pick seedRandom mathRandom array (resetModule calls w))
  = Returned (js_index array (Int_part (mathRandom calls * (INR (length array) - 0) + 0))).
Proof.
  intros Hne. rewrite pick_from_math; [ now destruct w | now destruct w | exact Hne ].
Qed.

Ltac simpl_world :=
  cbn [set_data set_currentRandom set_mathRandomCalls data currentRandom mathRandomCalls
       scene mesh meshesCreated isMouseDown mouseList currentImpulse innerWidth innerHeight].

(** One run of the generator, pick by pick: the first seed comes from the
    generator the run finds, the second and the third from [Math.random],
    each after a reset. *)
Lemma createDefaults_trace w :
  exists s1 s2 s3,
    In s1 spikeSeeds /\ In s2 spikeLengthSeeds /\ In s3 colorSeeds
    /\ js_index spikeSeeds
         (Int_part (nextValue seedRandom mathRandom w * (INR (length spikeSeeds) - 0) + 0))
       = Some s1
    /\ js_index spikeLengthSeeds
         (Int_part (mathRandom (lengthSeedCall tableDraws w)
                    * (INR (length spikeLengthSeeds) - 0) + 0))
       = Some s2
    /\ js_index colorSeeds
         (Int_part (mathRandom (colorSeedCall tableDraws w)
                    * (INR (length colorSeeds) - 0) + 0))
       = Some s3
    /\ createDefaults seedRandom mathRandom palettes tableDraws w
       = (Returned tt,
          set_data (fun d =>
                      set_palette (paletteOfSeed seedRandom palettes tableDraws s3)
                        (set_spikeLength (lengthOfSeed seedRandom tableDraws s2)
                           (set_spikeDetail (detailOfSeed seedRandom tableDraws s1) d)))
            (set_currentRandom (Seeded s3 (S tableDraws))
               (set_mathRandomCalls (S (colorSeedCall tableDraws w)) w))).
Proof.
  assert (Hv : 0 <= nextValue seedRandom mathRandom w < 1).
  { unfold nextValue. destruct (currentRandom w); auto. }
  destruct (js_index_of_draw spikeSeeds (nextValue seedRandom mathRandom w))
    as (s1 & E1 & In1); [ discriminate | exact Hv | ].
  assert (P1 : exists w1,
             pick seedRandom mathRandom spikeSeeds w = (Returned (Some s1), w1)
             /\ set_data (fun d => d) (set_currentRandom MathRandom w1)
                = set_currentRandom MathRandom
                    (set_mathRandomCalls (mathRandomCalls w + firstPickCalls w) w)).
  { unfold nextValue in E1. unfold firstPickCalls.
    destruct (currentRandom w) as [ | seed i ] eqn:Eg.
    - eexists. rewrite (pick_from_math spikeSeeds w Eg), E1 by discriminate.
      split; [ reflexivity | ].
      destruct w. cbn. now rewrite Nat.add_1_r.
    - eexists. rewrite (pick_from_seed spikeSeeds w seed i Eg), E1 by discriminate.
      split; [ reflexivity | ].
      destruct w. cbn. now rewrite Nat.add_0_r. }
  destruct P1 as (w1 & Ep1 & Hw1).
  unfold colorSeedCall, lengthSeedCall.
  set (n1 := (mathRandomCalls w + firstPickCalls w)%nat) in *.
  destruct (js_index_of_draw spikeLengthSeeds (mathRandom (n1 + tableDraws)))
    as (s2 & E2 & In2); [ discriminate | apply mathRandom_unit | ].
  destruct (js_index_of_draw colorSeeds (mathRandom (S (n1 + tableDraws) + tableDraws)))
    as (s3 & E3 & In3); [ discriminate | apply mathRandom_unit | ].
  exists s1, s2, s3. repeat (split; [ assumption | ]).
  unfold createDefaults.
  rewrite (bind_returned _ _ _ _ _ Ep1).
  rewrite <- bind_assoc_run, (bind_returned _ _ _ _ _ (seeded_range_run s1 1.35 40 _)).
  rewrite bind_modify, bind_setSeed_none.
  clearbody n1. destruct w1 as [d1 g1 m1 sc1 me1 mc1 down1 ml1 ci1 iw1 ih1].
  destruct w as [d g n sc m mc down ml ci iw ih].
  cbn in Hw1. injection Hw1 as -> -> -> -> -> -> -> -> -> ->.
  simpl_world.
  match goal with |- context [bind (pick _ _ spikeLengthSeeds) _ ?w0] =>
    rewrite (bind_returned _ _ _ _ _
               (pick_from_math spikeLengthSeeds w0 eq_refl ltac:(discriminate))) end.
  simpl_world. rewrite E2.
  rewrite <- bind_assoc_run, (bind_returned _ _ _ _ _ (seeded_range_run s2 1.0 1.4 _)).
  rewrite bind_modify, bind_setSeed_none.
  simpl_world.
  match goal with |- context [bind (pick _ _ colorSeeds) _ ?w0] =>
    rewrite (bind_returned _ _ _ _ _
               (pick_from_math colorSeeds w0 eq_refl ltac:(discriminate))) end.
  simpl_world. rewrite E3.
  rewrite <- bind_assoc_run, (bind_returned _ _ _ _ _ (seeded_pick_run s3 _)).
  destruct d. reflexivity.
Qed.

(** C8: the generated parameters are functions of the three picked seeds. A
    run of the generator returns; its first seed s1 is the one pick takes from
    the spike-detail pool on the generator the run finds, its second and third
    seeds s2 and s3 are the ones pick takes from their pools after a reset,
    each with a value of Math.random drawn during the run; spikeDetail,
    spikeLength and palette are what seeding the stream with s1, s2, s3 and
    drawing gives from any state of the random module; spikeDetail lies in
    [1.35, 40], spikeLength in [1.0, 1.4] and the palette is one of the table. *)
Theorem C8_parameters_are_functions_of_the_picked_seeds w :
  exists s1 s2 s3 k2 k3,
    In s1 spikeSeeds /\ In s2 spikeLengthSeeds /\ In s3 colorSeeds
    /\ fst (pick seedRandom mathRandom spikeSeeds w) = Returned (Some s1)
    /\ (mathRandomCalls w <= k2
        /\ k2 < k3
        /\ k3 < mathRandomCalls (snd (createDefaults seedRandom mathRandom palettes tableDraws w)))%nat
    /\ fst (pick seedRandom mathRandom spikeLengthSeeds (resetModule k2 w))
       = Returned (Some s2)
    /\ fst (pick seedRandom mathRandom colorSeeds (resetModule k3 w)) = Returned (Some s3)
    /\ fst (createDefaults seedRandom mathRandom palettes tableDraws w) = Returned tt
    /\ params (snd (createDefaults seedRandom mathRandom palettes tableDraws w))
       = (detailOfSeed seedRandom tableDraws s1, lengthOfSeed seedRandom tableDraws s2,
          paletteOfSeed seedRandom palettes tableDraws s3)
    /\ (forall w0,
          fst (bind (setSeed tableDraws (Some s1)) (fun _ => range seedRandom mathRandom 1.35 40) w0)
          = Returned (detailOfSeed seedRandom tableDraws s1))
    /\ (forall w0,
          fst (bind (setSeed tableDraws (Some s2)) (fun _ => range seedRandom mathRandom 1.0 1.4) w0)
          = Returned (lengthOfSeed seedRandom tableDraws s2))
    /\ (forall w0,
          fst (bind (setSeed tableDraws (Some s3)) (fun _ => pick seedRandom mathRandom palettes) w0)
          = Returned (paletteOfSeed seedRandom palettes tableDraws s3))
    /\ 1.35 <= detailOfSeed seedRandom tableDraws s1 <= 40
    /\ 1.0 <= lengthOfSeed seedRandom tableDraws s2 <= 1.4
    /\ (exists p, paletteOfSeed seedRandom palettes tableDraws s3 = Some p /\ In p palettes).
Proof.
  destruct (createDefaults_trace w)
    as (s1 & s2 & s3 & In1 & In2 & In3 & P1 & P2 & P3 & E).
  exists s1, s2, s3, (lengthSeedCall tableDraws w), (colorSeedCall tableDraws w).
  rewrite E. repeat (split; [ assumption | ]).
  split; [ rewrite pick_next by discriminate; now rewrite P1 | ].
  split.
  { unfold colorSeedCall, lengthSeedCall. destruct w. cbn. lia. }
  split; [ rewrite pick_reset by discriminate; now rewrite P2 | ].
  split; [ rewrite pick_reset by discriminate; now rewrite P3 | ].
  split; [ reflexivity | ].
  split; [ now destruct w as [[? ? ? ? ?] ? ? ? ? ? ? ? ? ? ?] | ].
  split; [ intros w0; now rewrite seeded_range_run | ].
  split; [ intros w0; now rewrite seeded_range_run | ].
  split; [ intros w0; now rewrite seeded_pick_run | ].
  split; [ apply range_bounds; [ apply seedRandom_unit | lra ] | ].
  split; [ apply range_bounds; [ apply seedRandom_unit | lra ] | ].
  apply paletteOfSeed_in.
Qed.

(** *** Frames *)

Lemma createMesh_run reset w :
  reset = true \/ palette (data w) <> None ->
  exists w',
    createMesh seedRandom mathRandom palettes tableDraws reset w = (Returned tt, w')
    /\ ready w' /\ currentImpulse w' = currentImpulse w.
Proof.
  intros Hok. destruct reset.
  - clear Hok. unfold createMesh, scene_remove, scene_add. rewrite bind_gets.
    set (w0 := match mesh w with
               | Some old =>
                   set_scene (fun s => set_children
                     (filter (fun c => negb (Nat.eqb c (mesh_id old))) (children s)) s) w
               | None => w
               end).
    assert (E0 : forall k : unit -> JS unit,
               bind (match mesh w with
                     | Some old => modify (set_scene (fun s => set_children
                         (filter (fun c => negb (Nat.eqb c (mesh_id old))) (children s)) s))
                     | None => ret tt
                     end) k w = k tt w0).
    { intros k. subst w0. now destruct (mesh w). }
    rewrite E0. cbn [when].
    destruct (createDefaults_run w0) as (s1 & s2 & s3 & g & n & _ & _ & _ & E).
    rewrite (bind_returned _ _ _ _ _ E), bind_gets.
    destruct (paletteOfSeed_in s3) as (p & Ep & _).
    assert (Ei : currentImpulse w0 = currentImpulse w).
    { subst w0. destruct (mesh w); [ now destruct w | reflexivity ]. }
    clearbody w0. destruct w0 as [[? ? ? ? ?] ? ? ? ? ? ? ? ? ? ?].
    cbn [set_data set_currentRandom set_mathRandomCalls data palette set_palette
         set_spikeLength set_spikeDetail shouldUpdate shouldReset spikeLength spikeDetail].
    rewrite Ep. rewrite bind_gets, !bind_modify.
    eexists. split; [ reflexivity | ]. cbn in Ei |- *.
    split; [ split; cbn; congruence | exact Ei ].
  - destruct Hok as [Hf | Hp]; [ discriminate | ].
    destruct (palette (data w)) as [p | ] eqn:Ep; [ | contradiction ].
    rewrite (createMesh_update_run seedRandom mathRandom palettes tableDraws w p Ep).
    eexists. split; [ reflexivity | ].
    destruct w as [[? ? ? ? ?] ? ? ? ? ? ? ? ? ? ?]. cbn in *.
    split; [ split; cbn; congruence | reflexivity ].
Qed.

Lemma resetBranch_run w :
  exists w',
    resetBranch seedRandom mathRandom palettes tableDraws w = (Returned tt, w')
    /\ ready w' /\ currentImpulse w' = currentImpulse w.
Proof.
  unfold resetBranch. rewrite !bind_modify.
  destruct (createMesh_run true (set_data (set_shouldUpdate false)
              (set_data (set_shouldReset false) w))) as (w' & E & Hr & Hi);
    [ now left | ].
  exists w'. split; [ exact E | ]. split; [ exact Hr | ].
  rewrite Hi. now destruct w.
Qed.

Lemma updateBranch_run w :
  ready w ->
  exists w',
    updateBranch seedRandom mathRandom palettes tableDraws w = (Returned tt, w')
    /\ ready w' /\ currentImpulse w' = currentImpulse w.
Proof.
  intros [_ Hp]. unfold updateBranch. rewrite bind_modify.
  destruct (createMesh_run false (set_data (set_shouldUpdate false) w)) as (w' & E & Hr & Hi).
  { right. now destruct w as [[? ? ? ? ?] ? ? ? ? ? ? ? ? ? ?]. }
  exists w'. split; [ exact E | ]. split; [ exact Hr | ].
  rewrite Hi. now destruct w.
Qed.

Lemma recreateMesh_run w :
  ready w ->
  exists w',
    recreateMesh seedRandom mathRandom palettes tableDraws w = (Returned tt, w')
    /\ ready w' /\ currentImpulse w' = currentImpulse w.
Proof.
  intros Hready. unfold recreateMesh. rewrite bind_gets. cbv zeta.
  destruct (shouldReset (data w)); cbn [when].
  - destruct (resetBranch_run w) as (w1 & E1 & Hr1 & Hi1).
    rewrite (bind_returned _ _ _ _ _ E1).
    destruct (shouldUpdate (data w)); cbn [when].
    + destruct (updateBranch_run w1 Hr1) as (w2 & E2 & Hr2 & Hi2).
      exists w2. split; [ exact E2 | ]. split; [ exact Hr2 | congruence ].
    + exists w1. now split.
  - rewrite bind_ret. destruct (shouldUpdate (data w)); cbn [when].
    + now apply updateBranch_run.
    + exists w. now split.
Qed.

(** One frame: the callback returns, the world stays drawable and the impulse
    has lost a tenth. *)
Lemma render_run time w :
  ready w ->
  exists w',
    render seedRandom mathRandom palettes tableDraws time w = (Returned tt, w')
    /\ ready w' /\ currentImpulse w' = vec2.scale (currentImpulse w) 0.9.
Proof.
  intros Hready. destruct (recreateMesh_run w Hready) as (w1 & E1 & [Hm1 Hp1] & Hi1).
  unfold render. rewrite (bind_returned _ _ _ _ _ E1).
  rewrite (bind_returned _ _ _ _ _ (rotateScene_run w1)).
  destruct (mesh w1) as [m | ] eqn:Em; [ | contradiction ].
  erewrite updateUniforms_run by (destruct w1; exact Em).
  eexists. split; [ reflexivity | ].
  destruct w1 as [[? ? ? ? ?] ? ? ? ? ? ? ? ? ? ?]. cbn in *.
  split; [ split; cbn; congruence | now rewrite Hi1 ].
Qed.

Lemma scale_scale (v : vec2.t) (a b : R) :
  vec2.scale (vec2.scale v a) b = vec2.scale v (a * b).
Proof. destruct v. unfold vec2.scale. cbn. f_equal; ring. Qed.

Lemma frames_run times w :
  ready w ->
  exists w',
    frames seedRandom mathRandom palettes tableDraws times w = (Returned tt, w')
    /\ ready w'
    /\ currentImpulse w' = vec2.scale (currentImpulse w) (0.9 ^ length times).
Proof.
  revert w. induction times as [ | time rest IH ]; intros w Hready.
  - exists w. split; [ reflexivity | ]. split; [ exact Hready | ].
    destruct (currentImpulse w). unfold vec2.scale. cbn. f_equal; ring.
  - destruct (render_run time w Hready) as (w1 & E1 & Hr1 & Hi1).
    destruct (IH w1 Hr1) as (w2 & E2 & Hr2 & Hi2).
    exists w2. cbn [frames]. rewrite (bind_returned _ _ _ _ _ E1).
    split; [ exact E2 | ]. split; [ exact Hr2 | ].
    rewrite Hi2, Hi1, scale_scale. reflexivity.
Qed.

Lemma scale_nonzero (v : vec2.t) (k : R) :
  k <> 0 -> v <> vec2.mk 0 0 -> vec2.scale v k <> vec2.mk 0 0.
Proof.
  intros Hk Hv Hz. apply Hv. destruct v as [a b]. unfold vec2.scale in Hz. cbn in Hz.
  injection Hz as Ha Hb.
  f_equal; [ apply (Rmult_eq_reg_r k) | apply (Rmult_eq_reg_r k) ]; lra.
Qed.

(** C4: a frame with no input event returns and multiplies each component of
    the impulse by 0.9; after k such frames the impulse is its start times
    0.9^k, and a start other than (0,0) never becomes (0,0). *)
Theorem C4_idle_frames_decay_impulse times w :
  ready w ->
  (forall time,
     fst (render seedRandom mathRandom palettes tableDraws time w) = Returned tt
     /\ currentImpulse (snd (render seedRandom mathRandom palettes tableDraws time w))
        = vec2.mk (vec2.x (currentImpulse w) * 0.9) (vec2.y (currentImpulse w) * 0.9))
  /\ fst (frames seedRandom mathRandom palettes tableDraws times w) = Returned tt
  /\ currentImpulse (snd (frames seedRandom mathRandom palettes tableDraws times w))
     = vec2.mk (vec2.x (currentImpulse w) * 0.9 ^ length times)
               (vec2.y (currentImpulse w) * 0.9 ^ length times)
  /\ (currentImpulse w <> vec2.mk 0 0 ->
      currentImpulse (snd (frames seedRandom mathRandom palettes tableDraws times w)) <> vec2.mk 0 0).
Proof.
  intros Hready. split.
  - intros time. destruct (render_run time w Hready) as (w1 & E1 & _ & Hi1).
    rewrite E1. split; [ reflexivity | exact Hi1 ].
  - destruct (frames_run times w Hready) as (w' & E & _ & Hi). rewrite E.
    split; [ reflexivity | ]. split; [ exact Hi | ].
    intros Hne. cbn [snd]. rewrite Hi. apply scale_nonzero; [ | exact Hne ].
    apply pow_nonzero. lra.
Qed.

End Generator.

(** ** The theorems at the sample state *)

Lemma zeroStream_unit : forall seed i, 0 <= zeroStream seed i < 1.
Proof. intros seed i. unfold zeroStream. lra. Qed.

Lemma halfRandom_unit : forall i, 0 <= halfRandom i < 1.
Proof. intros i. unfold halfRandom. lra. Qed.

Lemma samplePalettes_nonempty : [samplePalette] <> [].
Proof. discriminate. Qed.

Lemma sampleWorld_ready : ready sampleWorld.
Proof. split; discriminate. Qed.

Lemma C4_idle_frames_decay_impulse_witness :
  (forall seed i, 0 <= zeroStream seed i < 1)
  /\ (forall i, 0 <= halfRandom i < 1)
  /\ [samplePalette] <> []
  /\ ready sampleWorld
  /\ (forall time,
        fst (render zeroStream halfRandom [samplePalette] 255%nat time sampleWorld) = Returned tt
        /\ currentImpulse (snd (render zeroStream halfRandom [samplePalette] 255%nat time sampleWorld))
           = vec2.mk (vec2.x (currentImpulse sampleWorld) * 0.9)
                     (vec2.y (currentImpulse sampleWorld) * 0.9))
  /\ fst (frames zeroStream halfRandom [samplePalette] 255%nat [0; 1; 2] sampleWorld) = Returned tt
  /\ currentImpulse (snd (frames zeroStream halfRandom [samplePalette] 255%nat [0; 1; 2] sampleWorld))
     = vec2.mk (vec2.x (currentImpulse sampleWorld) * 0.9 ^ length [0; 1; 2])
               (vec2.y (currentImpulse sampleWorld) * 0.9 ^ length [0; 1; 2])
  /\ (currentImpulse sampleWorld <> vec2.mk 0 0 ->
      currentImpulse (snd (frames zeroStream halfRandom [samplePalette] 255%nat [0; 1; 2] sampleWorld))
      <> vec2.mk 0 0).
Proof.
  split; [ exact zeroStream_unit | ].
  split; [ exact halfRandom_unit | ].
  split; [ exact samplePalettes_nonempty | ].
  split; [ exact sampleWorld_ready | ].
  exact (C4_idle_frames_decay_impulse zeroStream halfRandom [samplePalette] 255%nat
           zeroStream_unit halfRandom_unit samplePalettes_nonempty
           [0; 1; 2] sampleWorld sampleWorld_ready).
Defined.

Lemma C8_parameters_are_functions_of_the_picked_seeds_witness :
  (forall seed i, 0 <= zeroStream seed i < 1)
  /\ (forall i, 0 <= halfRandom i < 1)
  /\ [samplePalette] <> []
  /\ exists s1 s2 s3 k2 k3,
       In s1 spikeSeeds /\ In s2 spikeLengthSeeds /\ In s3 colorSeeds
       /\ fst (pick zeroStream halfRandom spikeSeeds sampleWorld) = Returned (Some s1)
       /\ (mathRandomCalls sampleWorld <= k2
           /\ k2 < k3
           /\ k3 < mathRandomCalls
                     (snd (createDefaults zeroStream halfRandom [samplePalette] 255%nat
                             sampleWorld)))%nat
       /\ fst (pick zeroStream halfRandom spikeLengthSeeds (resetModule k2 sampleWorld))
          = Returned (Some s2)
       /\ fst (pick zeroStream halfRandom colorSeeds (resetModule k3 sampleWorld))
          = Returned (Some s3)
       /\ fst (createDefaults zeroStream halfRandom [samplePalette] 255%nat sampleWorld)
          = Returned tt
       /\ params (snd (createDefaults zeroStream halfRandom [samplePalette] 255%nat sampleWorld))
          = (detailOfSeed zeroStream 255%nat s1, lengthOfSeed zeroStream 255%nat s2,
             paletteOfSeed zeroStream [samplePalette] 255%nat s3)
       /\ (forall w0,
             fst (bind (setSeed 255%nat (Some s1))
                    (fun _ => range zeroStream halfRandom 1.35 40) w0)
             = Returned (detailOfSeed zeroStream 255%nat s1))
       /\ (forall w0,
             fst (bind (setSeed 255%nat (Some s2))
                    (fun _ => range zeroStream halfRandom 1.0 1.4) w0)
             = Returned (lengthOfSeed zeroStream 255%nat s2))
       /\ (forall w0,
             fst (bind (setSeed 255%nat (Some s3))
                    (fun _ => pick zeroStream halfRandom [samplePalette]) w0)
             = Returned (paletteOfSeed zeroStream [samplePalette] 255%nat s3))
       /\ 1.35 <= detailOfSeed zeroStream 255%nat s1 <= 40
       /\ 1.0 <= lengthOfSeed zeroStream 255%nat s2 <= 1.4
       /\ (exists p, paletteOfSeed zeroStream [samplePalette] 255%nat s3 = Some p
                     /\ In p [samplePalette]).
Proof.
  split; [ exact zeroStream_unit | ].
  split; [ exact halfRandom_unit | ].
  split; [ exact samplePalettes_nonempty | ].
  exact (C8_parameters_are_functions_of_the_picked_seeds zeroStream halfRandom
           [samplePalette] 255%nat zeroStream_unit halfRandom_unit samplePalettes_nonempty
           sampleWorld).
Defined.


(** ** More on the Displacement Model *)

Lemma sin_atan2_length (y x : R) : sin (atan2 y x) * length2 x y = y.
Proof.
  assert (Hs : 0 < sqrt (1 + (y / x)²)).
  { apply sqrt_lt_R0. pose proof (Rle_0_sqr (y / x)); lra. }
  unfold atan2, length2.
  destruct (Rlt_dec 0 x) as [Hp | Hp].
  - rewrite sqrt_factor by lra. rewrite sin_atan, Rabs_pos_eq by lra. field. lra.
  - destruct (Rlt_dec x 0) as [Hn | Hn].
    + rewrite sqrt_factor by lra. rewrite Rabs_left by lra.
      destruct (Rle_dec 0 y).
      * rewrite neg_sin, sin_atan. field. lra.
      * replace (atan (y / x) - PI) with (- (- atan (y / x) + PI)) by ring.
        rewrite sin_neg, neg_sin, sin_neg, sin_atan. field. lra.
    + assert (x = 0) by lra. subst x.
      replace (0 * 0 + y * y) with (y * y) by ring.
      destruct (Rlt_dec 0 y) as [Hy | Hy].
      * rewrite sin_PI2, sqrt_square by lra. ring.
      * destruct (Rlt_dec y 0) as [Hy' | Hy'].
        -- replace (y * y) with ((- y) * (- y)) by ring.
           rewrite sin_neg, sin_PI2, sqrt_square by lra. ring.
        -- assert (y = 0) by lra. subst y. rewrite sin_0. ring.
Qed.

Lemma length2_sqr (a b : R) : length2 a b * length2 a b = a * a + b * b.
Proof. unfold length2. apply sqrt_sqrt. nra. Qed.

Lemma vertexShader_horizontal_impulse noise ix detail len rot position normal uv :
  vec3.y (pos (vertexShader noise (vec2.mk ix 0) detail len rot position normal uv))
  = vec3.y (extruded noise detail len position normal).
Proof.
  destruct (Rlt_dec 0 (noiseScalar noise detail len position)) as [Hs | Hf].
  - rewrite (vertexShader_spike _ _ _ _ _ _ _ _ Hs). cbn [vec3.y].
    unfold angleV', vLength. cbn [vec2.y].
    rewrite Rmult_0_l, Rminus_0_r. apply cos_atan2_length.
  - now rewrite vertexShader_flush by lra.
Qed.

Lemma vertexShader_vertical_impulse noise iy detail len rot position normal uv :
  vec3.x (pos (vertexShader noise (vec2.mk 0 iy) detail len rot position normal uv))
  = vec3.x (extruded noise detail len position normal)
  /\ vec3.z (pos (vertexShader noise (vec2.mk 0 iy) detail len rot position normal uv))
     = vec3.z (extruded noise detail len position normal).
Proof.
  destruct (Rlt_dec 0 (noiseScalar noise detail len position)) as [Hs | Hf].
  - rewrite (vertexShader_spike _ _ _ _ _ _ _ _ Hs). cbn [vec3.x vec3.z].
    unfold angleH', hLength. cbn [vec2.x].
    rewrite Rmult_0_l, Rplus_0_r. split; [ apply cos_atan2_length | apply sin_atan2_length ].
  - now rewrite vertexShader_flush by lra.
Qed.

Lemma vertexShader_still noise detail len rot position normal uv :
  pos (vertexShader noise (vec2.mk 0 0) detail len rot position normal uv)
  = extruded noise detail len position normal.
Proof.
  pose proof (vertexShader_horizontal_impulse noise 0 detail len rot position normal uv) as Hy.
  destruct (vertexShader_vertical_impulse noise 0 detail len rot position normal uv)
    as [Hx Hz].
  destruct (pos (vertexShader noise (vec2.mk 0 0) detail len rot position normal uv))
    as [px py pz].
  destruct (extruded noise detail len position normal) as [ex ey ez].
  cbn in Hy, Hx, Hz. now subst.
Qed.

(** X1: a purely horizontal impulse (impulse.y = 0) leaves the height of every
    vertex at its extruded value, and a purely vertical one (impulse.x = 0)
    leaves x and z there, whatever the scene rotation; with no impulse at all
    the vertex stage is the radial extrusion and nothing else. *)
Theorem X1_impulse_axes_are_separate noise detail len rot position normal uv :
  (forall ix,
     vec3.y (pos (vertexShader noise (vec2.mk ix 0) detail len rot position normal uv))
     = vec3.y (extruded noise detail len position normal))
  /\ (forall iy,
        vec3.x (pos (vertexShader noise (vec2.mk 0 iy) detail len rot position normal uv))
        = vec3.x (extruded noise detail len position normal)
        /\ vec3.z (pos (vertexShader noise (vec2.mk 0 iy) detail len rot position normal uv))
           = vec3.z (extruded noise detail len position normal))
  /\ pos (vertexShader noise (vec2.mk 0 0) detail len rot position normal uv)
     = extruded noise detail len position normal.
Proof.
  split; [ intros ix; apply vertexShader_horizontal_impulse | ].
  split; [ intros iy; apply vertexShader_vertical_impulse | ].
  apply vertexShader_still.
Qed.

(** X2: the horizontal swing of a spike keeps its distance from the vertical
    axis: for uvNoise > 0 the displaced x and z satisfy x^2 + z^2 = ex^2 + ez^2,
    with (ex, ey, ez) the extruded position, for every impulse and rotation. *)
Theorem X2_swing_keeps_axis_distance noise impulse detail len rot position normal uv :
  0 < uvNoise (vertexShader noise impulse detail len rot position normal uv) ->
  let out := pos (vertexShader noise impulse detail len rot position normal uv) in
  let e := extruded noise detail len position normal in
  vec3.x out * vec3.x out + vec3.z out * vec3.z out
  = vec3.x e * vec3.x e + vec3.z e * vec3.z e.
Proof.
  rewrite vertexShader_uvNoise. intros Hs out e. subst out e.
  rewrite (vertexShader_spike _ _ _ _ _ _ _ _ Hs). cbn [vec3.x vec3.z].
  set (a := angleH' noise impulse detail len position normal).
  pose proof (sin2_cos2 a) as Hsc. unfold Rsqr in Hsc.
  unfold hLength.
  pose proof (length2_sqr (vec3.x (extruded noise detail len position normal))
                          (vec3.z (extruded noise detail len position normal))) as Hl.
  nra.
Qed.

Lemma X2_swing_keeps_axis_distance_witness :
  0 < uvNoise (vertexShader (flatNoise 0) (vec2.mk 0.3 0.2) 10 1.2 2
                 (vec3.mk 0.8 0 0) (vec3.mk 1 0 0) vec2.zero)
  /\ (let out := pos (vertexShader (flatNoise 0) (vec2.mk 0.3 0.2) 10 1.2 2
                        (vec3.mk 0.8 0 0) (vec3.mk 1 0 0) vec2.zero) in
      let e := extruded (flatNoise 0) 10 1.2 (vec3.mk 0.8 0 0) (vec3.mk 1 0 0) in
      vec3.x out * vec3.x out + vec3.z out * vec3.z out
      = vec3.x e * vec3.x e + vec3.z e * vec3.z e).
Proof.
  assert (H : 0 < uvNoise (vertexShader (flatNoise 0) (vec2.mk 0.3 0.2) 10 1.2 2
                 (vec3.mk 0.8 0 0) (vec3.mk 1 0 0) vec2.zero)).
  { cbn. unfold flatNoise. lra. }
  split; [ exact H | ].
  exact (X2_swing_keeps_axis_distance (flatNoise 0) (vec2.mk 0.3 0.2) 10 1.2 2
           (vec3.mk 0.8 0 0) (vec3.mk 1 0 0) vec2.zero H).
Defined.



(** ** More on the Shading Model *)

Lemma mix_between (a b t lo hi : R) :
  0 <= t <= 1 -> lo <= a <= hi -> lo <= b <= hi -> lo <= a * (1 - t) + b * t <= hi.
Proof. intros Ht Ha Hb. split; nra. Qed.

Lemma channel_range (m f d : R) :
  0 <= m <= 1 -> 0.4 <= f <= 1 -> 0 <= d -> 0 <= m * f * d <= d.
Proof.
  intros Hm Hf Hd. assert (Hmf : 0 <= m * f <= 1) by (split; nra).
  split; nra.
Qed.

(** X4: on the texture range 0 <= uv.x <= 1 the banding factor sine * 0.6 + 0.4
    lies in [0.4, 1]; so for palette colours with channels in [0, 1], colour
    noise in [-1, 1], uvNoise >= -1 and spikeLength >= 1 every channel of the
    fragment colour lies between 0 and darkness = uvNoise / spikeLength + 1,
    and alpha is 1. *)
Theorem X4_fragment_colour_range noise3 A B time len uv uvN :
  0 <= vec2.x uv <= 1 ->
  (forall p, -1 <= noise3 p <= 1) ->
  (0 <= vec3.x A <= 1 /\ 0 <= vec3.y A <= 1 /\ 0 <= vec3.z A <= 1) ->
  (0 <= vec3.x B <= 1 /\ 0 <= vec3.y B <= 1 /\ 0 <= vec3.z B <= 1) ->
  -1 <= uvN -> 1 <= len ->
  let c := fragmentShader noise3 A B time len uv uvN in
  let darkness := uvN / len + 1 in
  0.4 <= sin (vec2.x uv * 3.14) * 0.6 + 0.4 <= 1
  /\ 0 <= vec4.x c <= darkness
  /\ 0 <= vec4.y c <= darkness
  /\ 0 <= vec4.z c <= darkness
  /\ vec4.w c = 1.
Proof.
  intros Hu Hn3 (HAx & HAy & HAz) (HBx & HBy & HBz) HuvN Hlen c darkness.
  assert (Hsin : 0 <= sin (vec2.x uv * 3.14) <= 1).
  { split; [ | apply SIN_bound ].
    apply sin_ge_0; [ nra | ]. pose proof PI_gt_314. nra. }
  assert (Hd : 0 <= darkness).
  { subst darkness. unfold Rdiv.
    assert (0 < / len <= 1).
    { split; [ apply Rinv_0_lt_compat; lra | ].
      rewrite <- Rinv_1. apply Rinv_le_contravar; lra. }
    nra. }
  set (f := sin (vec2.x uv * 3.14) * 0.6 + 0.4).
  assert (Hf : 0.4 <= f <= 1) by (subst f; lra).
  set (n := noise3 (vec3.mk (vec2.x uv * 6) (vec2.y uv * 6) (time * 0.02)) * 0.5 + 0.5).
  assert (Ht : 0 <= n <= 1).
  { subst n. specialize (Hn3 (vec3.mk (vec2.x uv * 6) (vec2.y uv * 6) (time * 0.02))). lra. }
  pose proof (mix_between _ _ n 0 1 Ht HAx HBx) as Hx.
  pose proof (mix_between _ _ n 0 1 Ht HAy HBy) as Hy.
  pose proof (mix_between _ _ n 0 1 Ht HAz HBz) as Hz.
  split; [ exact Hf | ].
  subst c. unfold fragmentShader, mix, vec4.of_vec3, vec3.scale, vec3.add.
  cbn [vec3.x vec3.y vec3.z vec4.x vec4.y vec4.z vec4.w].
  fold n. fold f. fold darkness.
  pose proof (channel_range _ f darkness Hx Hf Hd).
  pose proof (channel_range _ f darkness Hy Hf Hd).
  pose proof (channel_range _ f darkness Hz Hf Hd).
  repeat split; lra.
Qed.

Lemma X4_fragment_colour_range_witness :
  0 <= vec2.x (vec2.mk 0.5 0.5) <= 1
  /\ (forall p, -1 <= flatNoise3 0 p <= 1)
  /\ (let c := fragmentShader (flatNoise3 0) white white 0 1.2 (vec2.mk 0.5 0.5) 0.2 in
      let darkness := 0.2 / 1.2 + 1 in
      0.4 <= sin (vec2.x (vec2.mk 0.5 0.5) * 3.14) * 0.6 + 0.4 <= 1
      /\ 0 <= vec4.x c <= darkness
      /\ 0 <= vec4.y c <= darkness
      /\ 0 <= vec4.z c <= darkness
      /\ vec4.w c = 1).
Proof.
  assert (Hu : 0 <= vec2.x (vec2.mk 0.5 0.5) <= 1) by (cbn; lra).
  assert (Hn : forall p, -1 <= flatNoise3 0 p <= 1) by (intros p; unfold flatNoise3; lra).
  assert (Hw : 0 <= vec3.x white <= 1 /\ 0 <= vec3.y white <= 1 /\ 0 <= vec3.z white <= 1)
    by (cbn; lra).
  split; [ exact Hu | ]. split; [ exact Hn | ].
  apply (X4_fragment_colour_range (flatNoise3 0) white white 0 1.2 (vec2.mk 0.5 0.5) 0.2
           Hu Hn Hw Hw); lra.
Defined.

(** ** More on the drag direction *)

(** X5: for every scene rotation sceneRotationX <= PI/2 the drag direction is
    +1. The remainder follows the sign of its dividend, so a scene turned
    backwards never flips the drag, however far: not at -PI, where it hangs
    upside down just as at +PI. *)
Theorem X5_direction_never_flips_backwards (rotationX : R) :
  rotationX <= PI / 2 -> direction rotationX = 1.
Proof.
  intros Hrx. unfold direction.
  destruct (Rlt_dec 1 (js_rem ((rotationX + PI / 2) / PI) 2)) as [Hgt | _];
    [ exfalso | reflexivity ].
  destruct (Rle_dec (rotationX + PI / 2) 0) as [Hneg | Hpos].
  - pose proof (js_rem_nonpos ((rotationX + PI / 2) / PI)) as H.
    assert ((rotationX + PI / 2) / PI <= 0) by (apply quotient_le; lra). lra.
  - assert (H0 : 0 <= (rotationX + PI / 2) / PI) by (apply quotient_ge; lra).
    assert (H1 : (rotationX + PI / 2) / PI <= 1) by (apply quotient_le; lra).
    rewrite js_rem_below in Hgt by lra. lra.
Qed.

Lemma X5_direction_never_flips_backwards_witness :
  - PI <= PI / 2 /\ direction (- PI) = 1.
Proof.
  assert (H : - PI <= PI / 2) by (pose proof PI_RGT_0; lra).
  split; [ exact H | exact (X5_direction_never_flips_backwards (- PI) H) ].
Defined.

(** X6: for PI/2 < sceneRotationX < 3 PI/2, the scene turned forwards past
    upside down, the drag direction is -1. *)
Theorem X6_direction_flips_upside_down (rotationX : R) :
  PI / 2 < rotationX < 3 * PI / 2 -> direction rotationX = -1.
Proof.
  intros [Hlo Hhi]. unfold direction.
  assert (H1 : 1 < (rotationX + PI / 2) / PI) by (apply quotient_gt; lra).
  assert (H2 : (rotationX + PI / 2) / PI < 2) by (apply quotient_lt; lra).
  rewrite js_rem_below by lra.
  destruct (Rlt_dec 1 ((rotationX + PI / 2) / PI)); [ reflexivity | lra ].
Qed.

Lemma X6_direction_flips_upside_down_witness :
  PI / 2 < PI < 3 * PI / 2 /\ direction PI = -1.
Proof.
  assert (H : PI / 2 < PI < 3 * PI / 2) by (pose proof PI_RGT_0; lra).
  split; [ exact H | exact (X6_direction_flips_upside_down PI H) ].
Defined.

(** X7: from sceneRotationX >= -PI/2 on, the drag direction repeats with every
    full turn: direction (x + 2 PI) = direction x. *)
Theorem X7_direction_repeats_every_turn (rotationX : R) :
  - (PI / 2) <= rotationX -> direction (rotationX + 2 * PI) = direction rotationX.
Proof.
  intros Hrx. unfold direction.
  replace ((rotationX + 2 * PI + PI / 2) / PI) with ((rotationX + PI / 2) / PI + 2)
    by (field; apply PI_neq0).
  rewrite js_rem_period; [ reflexivity | ].
  apply quotient_ge. lra.
Qed.

Lemma X7_direction_repeats_every_turn_witness :
  - (PI / 2) <= 0 /\ direction (0 + 2 * PI) = direction 0.
Proof.
  assert (H : - (PI / 2) <= 0) by (pose proof PI_RGT_0; lra).
  split; [ exact H | exact (X7_direction_repeats_every_turn 0 H) ].
Defined.

(** ** More on the pointer handlers *)

Lemma getInputPosition_run (e : Event) (w : World) :
  getInputPosition e w = (Returned (normalized e (innerWidth w) (innerHeight w)), w).
Proof. unfold getInputPosition, normalized. now destruct (touches e). Qed.

Lemma normalized_pointer (e : Event) (W H : R) :
  normalized e W H
  = vec2.mk (vec2.x (pointer e) / W * 2 - 1) (- (vec2.y (pointer e) / H) * 2 + 1).
Proof. unfold normalized, pointer. now destruct (touches e). Qed.

(** X8: on a window of positive size a pointer inside the window (the first
    touch if there is one, the client coordinates otherwise) is normalized to
    [-1, 1] on both axes, with y turned upwards: the top-left corner maps to
    (-1, 1) and the bottom-right one to (1, -1); the world is not changed. *)
Theorem X8_pointer_is_normalized (e : Event) (w : World) :
  0 < innerWidth w -> 0 < innerHeight w ->
  0 <= vec2.x (pointer e) <= innerWidth w ->
  0 <= vec2.y (pointer e) <= innerHeight w ->
  exists p,
    getInputPosition e w = (Returned p, w)
    /\ -1 <= vec2.x p <= 1 /\ -1 <= vec2.y p <= 1
    /\ (pointer e = vec2.mk 0 0 -> p = vec2.mk (-1) 1)
    /\ (pointer e = vec2.mk (innerWidth w) (innerHeight w) -> p = vec2.mk 1 (-1)).
Proof.
  intros HW HH Hx Hy. exists (normalized e (innerWidth w) (innerHeight w)).
  split; [ apply getInputPosition_run | ].
  rewrite normalized_pointer. cbn [vec2.x vec2.y].
  assert (Hqx : 0 <= vec2.x (pointer e) / innerWidth w <= 1).
  { split.
    - apply Rmult_le_pos; [ lra | left; now apply Rinv_0_lt_compat ].
    - apply (Rmult_le_reg_r (innerWidth w)); [ exact HW | ].
      replace (vec2.x (pointer e) / innerWidth w * innerWidth w)
        with (vec2.x (pointer e)) by (field; lra). lra. }
  assert (Hqy : 0 <= vec2.y (pointer e) / innerHeight w <= 1).
  { split.
    - apply Rmult_le_pos; [ lra | left; now apply Rinv_0_lt_compat ].
    - apply (Rmult_le_reg_r (innerHeight w)); [ exact HH | ].
      replace (vec2.y (pointer e) / innerHeight w * innerHeight w)
        with (vec2.y (pointer e)) by (field; lra). lra. }
  split; [ lra | ]. split; [ lra | ]. split.
  - intros ->. cbn [vec2.x vec2.y]. f_equal; field; lra.
  - intros ->. cbn [vec2.x vec2.y]. f_equal; field; lra.
Qed.

Lemma X8_pointer_is_normalized_witness :
  0 < innerWidth sampleWorld
  /\ 0 < innerHeight sampleWorld
  /\ 0 <= vec2.x (pointer moveRight) <= innerWidth sampleWorld
  /\ 0 <= vec2.y (pointer moveRight) <= innerHeight sampleWorld
  /\ exists p,
       getInputPosition moveRight sampleWorld = (Returned p, sampleWorld)
       /\ -1 <= vec2.x p <= 1 /\ -1 <= vec2.y p <= 1
       /\ (pointer moveRight = vec2.mk 0 0 -> p = vec2.mk (-1) 1)
       /\ (pointer moveRight = vec2.mk (innerWidth sampleWorld) (innerHeight sampleWorld) ->
           p = vec2.mk 1 (-1)).
Proof.
  assert (HW : 0 < innerWidth sampleWorld) by (cbn; lra).
  assert (HH : 0 < innerHeight sampleWorld) by (cbn; lra).
  assert (Hx : 0 <= vec2.x (pointer moveRight) <= innerWidth sampleWorld) by (cbn; lra).
  assert (Hy : 0 <= vec2.y (pointer moveRight) <= innerHeight sampleWorld) by (cbn; lra).
  repeat (split; [ assumption | ]).
  exact (X8_pointer_is_normalized moveRight sampleWorld HW HH Hx Hy).
Defined.

Lemma onMouseMove_run (e : Event) (w : World) :
  isMouseDown w = true ->
  let p := normalized e (innerWidth w) (innerHeight w) in
  let lastMouse := last (mouseList w) p in
  onMouseMove e w
  = (Returned tt,
     set_currentImpulse
       (vec2.mk (vec2.x (currentImpulse w)
                 + direction (vec2.x (rotation (scene w)))
                   * (vec2.x p - vec2.x lastMouse) * 0.5)
                (vec2.y (currentImpulse w) - (vec2.y p - vec2.y lastMouse) * 0.5))
       (set_mouseList (mouseList w ++ [p]) w)).
Proof.
  intros Hdown p lastMouse. unfold onMouseMove.
  rewrite bind_gets, Hdown. cbn [when].
  rewrite (bind_returned _ _ _ _ _ (getInputPosition_run e w)).
  destruct w as [d g n sc m mc down ml ci iw ih]. reflexivity.
Qed.

Lemma last_cons {A : Type} (l : list A) :
  forall (x d : A), last (x :: l) d = last l x.
Proof.
  induction l as [ | a l IH ]; intros x d; [ reflexivity | ].
  change (last (x :: a :: l) d) with (last (a :: l) d).
  now rewrite (IH a d), (IH a x).
Qed.

Lemma frame_trans (w w1 w2 : World) (ci : vec2.t) (ml : list vec2.t) :
  w1 = set_currentImpulse ci (set_mouseList ml w) ->
  set_currentImpulse (currentImpulse w1) (set_mouseList (mouseList w1) w2) = w1 ->
  set_currentImpulse (currentImpulse w) (set_mouseList (mouseList w) w2) = w.
Proof.
  intros -> H. destruct w, w2. unfold set_currentImpulse, set_mouseList in *.
  cbn in *. congruence.
Qed.

Lemma moves_run (events : list Event) :
  forall (w : World) (history : list vec2.t) (anchor : vec2.t),
    isMouseDown w = true ->
    mouseList w = history ++ [anchor] ->
    let ps := map (fun e => normalized e (innerWidth w) (innerHeight w)) events in
    exists w',
      moves events w = (Returned tt, w')
      /\ isMouseDown w' = true
      /\ mouseList w' = history ++ anchor :: ps
      /\ vec2.x (currentImpulse w')
         = vec2.x (currentImpulse w)
           + direction (vec2.x (rotation (scene w)))
             * (vec2.x (last ps anchor) - vec2.x anchor) * 0.5
      /\ vec2.y (currentImpulse w')
         = vec2.y (currentImpulse w) - (vec2.y (last ps anchor) - vec2.y anchor) * 0.5
      /\ set_currentImpulse (currentImpulse w) (set_mouseList (mouseList w) w')
         = w.
Proof.
  induction events as [ | e rest IH ]; intros w history anchor Hdown Hlist ps.
  - exists w. subst ps. cbn [map last moves ret].
    repeat split; try assumption; try lra. now destruct w.
  - pose proof (onMouseMove_run e w Hdown) as E. cbv zeta in E.
    rewrite Hlist, last_last in E.
    set (p := normalized e (innerWidth w) (innerHeight w)) in *.
    match type of E with _ = (_, ?t) => set (w1 := t) in * end.
    destruct (IH w1 (history ++ [anchor]) p) as (w2 & E2 & Hd2 & Hl2 & Hx2 & Hy2 & Hrest).
    { subst w1. now destruct w. }
    { subst w1. now destruct w. }
    assert (Hw : innerWidth w1 = innerWidth w /\ innerHeight w1 = innerHeight w
                 /\ scene w1 = scene w) by (subst w1; now destruct w).
    destruct Hw as (Hiw & Hih & Hsc). rewrite Hiw, Hih, Hsc in *.
    exists w2. cbn [moves]. rewrite (bind_returned _ _ _ _ _ E).
    split; [ exact E2 | ]. split; [ exact Hd2 | ].
    subst ps. cbn [map]. fold p.
    set (ps := map (fun e0 => normalized e0 (innerWidth w) (innerHeight w)) rest) in *.
    rewrite last_cons.
    split; [ now rewrite Hl2, <- app_assoc | ].
    assert (Hi1 : currentImpulse w1
                  = vec2.mk (vec2.x (currentImpulse w)
                             + direction (vec2.x (rotation (scene w)))
                               * (vec2.x p - vec2.x anchor) * 0.5)
                            (vec2.y (currentImpulse w) - (vec2.y p - vec2.y anchor) * 0.5))
      by (subst w1; now destruct w).
    rewrite Hi1 in Hx2, Hy2. cbn [vec2.x vec2.y] in Hx2, Hy2.
    split; [ lra | ]. split; [ lra | ].
    exact (frame_trans w w1 w2 _ _ eq_refl Hrest).
Qed.

(** X9: a whole drag gesture. After a press at e0 and any number of move
    events, the handlers return, the button is held, mouseList is the press
    position followed by every move position in order, and the impulse has
    gained direction * (last.x - press.x) * 0.5 on x and lost (last.y -
    press.y) * 0.5 on y: it depends on the press point and the last point of the
    path only, not on the points in between nor on any earlier drag. *)
Theorem X9_drag_depends_on_end_points (e0 : Event) (events : list Event) (w0 : World) :
  let run := bind (onMouseDown e0) (fun _ => moves events) w0 in
  let p0 := normalized e0 (innerWidth w0) (innerHeight w0) in
  let ps := map (fun e => normalized e (innerWidth w0) (innerHeight w0)) events in
  fst run = Returned tt
  /\ isMouseDown (snd run) = true
  /\ mouseList (snd run) = p0 :: ps
  /\ vec2.x (currentImpulse (snd run))
     = vec2.x (currentImpulse w0)
       + direction (vec2.x (rotation (scene w0)))
         * (vec2.x (last ps p0) - vec2.x p0) * 0.5
  /\ vec2.y (currentImpulse (snd run))
     = vec2.y (currentImpulse w0) - (vec2.y (last ps p0) - vec2.y p0) * 0.5.
Proof.
  intros run p0 ps.
  assert (Edown : onMouseDown e0 w0
                  = (Returned tt, set_mouseList [p0] (set_isMouseDown true w0))).
  { unfold onMouseDown. rewrite bind_modify.
    rewrite (bind_returned _ _ _ _ _ (getInputPosition_run e0 _)).
    subst p0. now destruct w0. }
  destruct (moves_run events (set_mouseList [p0] (set_isMouseDown true w0)) [] p0)
    as (w' & E & Hd & Hl & Hx & Hy & _).
  { now destruct w0. }
  { now destruct w0. }
  assert (Hsame : innerWidth (set_mouseList [p0] (set_isMouseDown true w0)) = innerWidth w0
                  /\ innerHeight (set_mouseList [p0] (set_isMouseDown true w0)) = innerHeight w0
                  /\ scene (set_mouseList [p0] (set_isMouseDown true w0)) = scene w0
                  /\ currentImpulse (set_mouseList [p0] (set_isMouseDown true w0))
                     = currentImpulse w0) by (now destruct w0).
  destruct Hsame as (Hiw & Hih & Hsc & Hci). rewrite Hiw, Hih, Hsc, Hci in *.
  subst run. rewrite (bind_returned _ _ _ _ _ Edown), E. cbn [fst snd].
  repeat split; assumption.
Qed.

Lemma moves_idle (events : list Event) (w : World) :
  isMouseDown w = false -> moves events w = (Returned tt, w).
Proof.
  intros Hup. induction events as [ | e rest IH ]; [ reflexivity | ].
  cbn [moves]. unfold onMouseMove at 1. rewrite bind_assoc_run, bind_gets, Hup.
  cbn [when]. rewrite bind_ret. exact IH.
Qed.

(** X10: after a release, move events change nothing: whatever moves follow
    onMouseUp, the world is the one the release left, with the impulse, the
    recorded positions and the scene as they were. *)
Theorem X10_moves_after_release_change_nothing (e : Event) (events : list Event) (w : World) :
  bind (onMouseUp e) (fun _ => moves events) w = (Returned tt, set_isMouseDown false w)
  /\ currentImpulse (set_isMouseDown false w) = currentImpulse w
  /\ mouseList (set_isMouseDown false w) = mouseList w.
Proof.
  split; [ | now destruct w ].
  unfold onMouseUp. rewrite bind_modify. apply moves_idle. now destruct w.
Qed.

(** ** The view *)

Lemma aspect_lt_1 (W H : R) : 0 < H -> (W / H < 1 <-> W < H).
Proof.
  intros HH. split; intros Hlt.
  - apply (Rmult_lt_compat_r H) in Hlt; [ | exact HH ].
    replace (W / H * H) with W in Hlt by (field; lra). lra.
  - apply (Rmult_lt_reg_r H); [ exact HH | ].
    replace (W / H * H) with W by (field; lra). lra.
Qed.

(** X11: on a viewport of positive size resize leaves a frustum that is
    symmetric about the view axis and has the aspect of the viewport (right -
    left = (width / height) * (top - bottom)), with half-height 2.5 on a portrait
    viewport and 1.5 otherwise, the camera on the z axis at that distance,
    looking at the origin; nothing of the earlier view survives. *)
Theorem X11_resize_frustum (ratio W H : R) (v : View) :
  0 < W -> 0 < H ->
  let c := camera (resize ratio W H v) in
  left c = - right c /\ bottom c = - top c
  /\ right c - left c = W / H * (top c - bottom c)
  /\ 0 < right c
  /\ (W < H -> top c = 2.5) /\ (H <= W -> top c = 1.5)
  /\ near c < far c
  /\ position c = vec3.mk 0 0 (top c) /\ target c = vec3.mk 0 0 0
  /\ renderer (resize ratio W H v) = mkRenderer ratio W H
  /\ (forall v', resize ratio W H v = resize ratio W H v').
Proof.
  intros HW HH c. subst c. unfold resize. cbn.
  assert (Ha : 0 < W / H) by (apply Rdiv_lt_0_compat; assumption).
  pose proof (aspect_lt_1 W H HH) as Hlt.
  destruct (Rlt_dec (W / H) 1) as [Hp | Hl].
  - apply Hlt in Hp. repeat split; try lra; try nra.
  - assert (Hge : H <= W) by (destruct (Rle_dec H W); [ assumption | exfalso; apply Hl, Hlt; lra ]).
    repeat split; try lra; try nra.
Qed.

Lemma X11_resize_frustum_witness :
  0 < 375 /\ 0 < 667
  /\ (let c := camera (resize 2 375 667 (mkView (mkRenderer 1 300 150) setupCamera)) in
      left c = - right c /\ bottom c = - top c
      /\ right c - left c = 375 / 667 * (top c - bottom c)
      /\ 0 < right c
      /\ (375 < 667 -> top c = 2.5) /\ (667 <= 375 -> top c = 1.5)
      /\ near c < far c
      /\ position c = vec3.mk 0 0 (top c) /\ target c = vec3.mk 0 0 0
      /\ renderer (resize 2 375 667 (mkView (mkRenderer 1 300 150) setupCamera))
         = mkRenderer 2 375 667
      /\ (forall v', resize 2 375 667 (mkView (mkRenderer 1 300 150) setupCamera)
                     = resize 2 375 667 v')).
Proof.
  assert (HW : 0 < 375) by lra. assert (HH : 0 < 667) by lra.
  split; [ exact HW | ]. split; [ exact HH | ].
  exact (X11_resize_frustum 2 375 667 (mkView (mkRenderer 1 300 150) setupCamera) HW HH).
Defined.

(** X12: on every viewport at least 0.32 times as wide as it is tall the
    frustum resize sets contains the square [-0.8, 0.8]^2, the outline of the
    sphere of radius 0.8 before displacement. *)
Theorem X12_resize_shows_the_sphere (ratio W H : R) (v : View) :
  0 < H -> 0.32 * H <= W ->
  let c := camera (resize ratio W H v) in
  left c <= -0.8 /\ 0.8 <= right c /\ bottom c <= -0.8 /\ 0.8 <= top c.
Proof.
  intros HH Hwide c. subst c. unfold resize. cbn.
  assert (Ha : 0.32 <= W / H).
  { apply (Rmult_le_reg_r H); [ exact HH | ].
    replace (W / H * H) with W by (field; lra). exact Hwide. }
  destruct (Rlt_dec (W / H) 1) as [Hp | Hl]; repeat split; nra.
Qed.

Lemma X12_resize_shows_the_sphere_witness :
  0 < 667 /\ 0.32 * 667 <= 375
  /\ (let c := camera (resize 2 375 667 (mkView (mkRenderer 1 300 150) setupCamera)) in
      left c <= -0.8 /\ 0.8 <= right c /\ bottom c <= -0.8 /\ 0.8 <= top c).
Proof.
  assert (HH : 0 < 667) by lra. assert (Hw : 0.32 * 667 <= 375) by lra.
  split; [ exact HH | ]. split; [ exact Hw | ].
  exact (X12_resize_shows_the_sphere 2 375 667 (mkView (mkRenderer 1 300 150) setupCamera)
           HH Hw).
Defined.

(** ** More on the frames *)

Lemma pow_09_unit (k : nat) : 0 < 0.9 ^ k <= 1.
Proof.
  induction k as [ | k IH ]; cbn [pow]; [ lra | ]. destruct IH. split; nra.
Qed.

Lemma filter_own_id (id : nat) :
  filter (fun c => negb (Nat.eqb c id)) [id] = [].
Proof. cbn. now rewrite Nat.eqb_refl. Qed.

Section Frames.
Variable seedRandom : Z -> nat -> R.
Variable mathRandom : nat -> R.
Variable palettes : list Palette.
Variable tableDraws : nat.

Hypothesis seedRandom_unit : forall seed i, 0 <= seedRandom seed i < 1.
Hypothesis mathRandom_unit : forall i, 0 <= mathRandom i < 1.
Hypothesis palettes_nonempty : palettes <> [].

(** What a rebuild leaves behind, with or without reset. *)
Lemma createMesh_effect reset w :
  reset = true \/ palette (data w) <> None ->
  exists w' p,
    createMesh seedRandom mathRandom palettes tableDraws reset w = (Returned tt, w')
    /\ palette (data w') = Some p
    /\ mesh w' = Some (mkMesh (meshesCreated w) (newUniforms (data w') p))
    /\ meshesCreated w' = S (meshesCreated w)
    /\ children (scene w')
       = match mesh w with
         | Some old => filter (fun c => negb (Nat.eqb c (mesh_id old))) (children (scene w))
         | None => children (scene w)
         end ++ [meshesCreated w]
    /\ rotation (scene w') = rotation (scene w)
    /\ currentImpulse w' = currentImpulse w
    /\ flags w' = flags w
    /\ (reset = false -> data w' = data w)
    /\ (reset = true ->
        exists s1 s2 s3,
          In s1 spikeSeeds /\ In s2 spikeLengthSeeds /\ In s3 colorSeeds
          /\ params w' = (detailOfSeed seedRandom tableDraws s1, lengthOfSeed seedRandom tableDraws s2,
                          paletteOfSeed seedRandom palettes tableDraws s3)).
Proof.
  intros Hok. destruct reset.
  - clear Hok. unfold createMesh, scene_remove, scene_add. rewrite bind_gets.
    set (w0 := match mesh w with
               | Some old =>
                   set_scene (fun s => set_children
                     (filter (fun c => negb (Nat.eqb c (mesh_id old))) (children s)) s) w
               | None => w
               end).
    assert (E0 : forall k : unit -> JS unit,
               bind (match mesh w with
                     | Some old => modify (set_scene (fun s => set_children
                         (filter (fun c => negb (Nat.eqb c (mesh_id old))) (children s)) s))
                     | None => ret tt
                     end) k w = k tt w0).
    { intros k. subst w0. now destruct (mesh w). }
    rewrite E0. cbn [when].
    destruct (createDefaults_run seedRandom mathRandom palettes tableDraws
                seedRandom_unit mathRandom_unit palettes_nonempty w0)
      as (s1 & s2 & s3 & g & n & In1 & In2 & In3 & E).
    rewrite (bind_returned _ _ _ _ _ E), bind_gets.
    destruct (paletteOfSeed_in seedRandom palettes tableDraws seedRandom_unit palettes_nonempty s3)
      as (p & Ep & _).
    assert (H0 : meshesCreated w0 = meshesCreated w
                 /\ children (scene w0)
                    = match mesh w with
                      | Some old =>
                          filter (fun c => negb (Nat.eqb c (mesh_id old))) (children (scene w))
                      | None => children (scene w)
                      end
                 /\ rotation (scene w0) = rotation (scene w)
                 /\ currentImpulse w0 = currentImpulse w
                 /\ flags w0 = flags w).
    { subst w0. destruct (mesh w); [ | now repeat split ].
      now destruct w as [? ? ? [? ?] ? ? ? ? ? ? ?]. }
    destruct H0 as (Hmc & Hch & Hrot & Hci & Hfl).
    rewrite <- Hmc, <- Hch, <- Hrot, <- Hci, <- Hfl.
    clearbody w0. destruct w0 as [[? ? ? ? ?] ? ? [? ?] ? ? ? ? ? ? ?].
    cbn [set_data set_currentRandom set_mathRandomCalls data palette set_palette
         set_spikeLength set_spikeDetail shouldUpdate shouldReset spikeLength spikeDetail].
    rewrite Ep. rewrite bind_gets, !bind_modify.
    eexists. exists p. split; [ reflexivity | ]. cbn.
    repeat (split; [ first [ reflexivity | discriminate ] | ]).
    intros _. exists s1, s2, s3. rewrite Ep. now repeat split.
  - destruct Hok as [Hf | Hp]; [ discriminate | ].
    destruct (palette (data w)) as [p | ] eqn:Ep; [ | contradiction ].
    rewrite (createMesh_update_run seedRandom mathRandom palettes tableDraws w p Ep).
    eexists. exists p. split; [ reflexivity | ].
    destruct w as [[? ? ? ? ?] ? ? [? ?] ? ? ? ? ? ? ?]. cbn in *.
    repeat split; try reflexivity; try assumption. discriminate.
Qed.

Lemma built_refl w : ready w -> Built w w 0.
Proof.
  intros Hr. split.
  - exact Hr.
  - lia.
  - reflexivity.
  - reflexivity.
  - trivial.
  - intros [Hn | Hs]; [ lia | exact Hs ].
Qed.

Lemma built_step reset w0 w n :
  Built w0 w n ->
  exists w',
    createMesh seedRandom mathRandom palettes tableDraws reset w = (Returned tt, w')
    /\ Built w0 w' (S n) /\ flags w' = flags w.
Proof.
  intros [[Hm Hp] Hc Hrot Hci Hholds Hsync].
  destruct (createMesh_effect reset w) as
    (w' & p & E & Hp' & Hm' & Hc' & Hch' & Hrot' & Hci' & Hfl' & _); [ now right | ].
  exists w'. split; [ exact E | ]. split; [ | exact Hfl' ].
  split.
  - split; congruence.
  - lia.
  - congruence.
  - congruence.
  - intros H0. destruct (Hholds H0) as (m & Em & Hch & Hlt).
    exists (mkMesh (meshesCreated w) (newUniforms (data w') p)).
    split; [ exact Hm' | ]. rewrite Hch', Em, Hch, filter_own_id. cbn. split; [ reflexivity | lia ].
  - intros _. exists (mkMesh (meshesCreated w) (newUniforms (data w') p)), p.
    split; [ exact Hm' | ]. split; [ exact Hp' | ]. now cbn.
Qed.

Lemma built_flags_irrelevant w0 w n (f : Data -> Data) :
  (forall d, palette (f d) = palette d /\ spikeDetail (f d) = spikeDetail d
             /\ spikeLength (f d) = spikeLength d) ->
  Built w0 w n -> Built w0 (set_data f w) n.
Proof.
  intros Hf [[Hm Hp] Hc Hrot Hci Hholds Hsync].
  destruct w as [d ? ? ? ? ? ? ? ? ? ?]. destruct (Hf d) as (Hfp & Hfd & Hfl).
  cbn in *. split; cbn; auto.
  - split; cbn; congruence.
  - intros H. destruct (Hsync H) as (m & p & Em & Ep & H1 & H2 & H3 & H4).
    exists m, p. cbn in *. repeat split; congruence.
Qed.

Lemma recreateMesh_effect w :
  ready w ->
  exists w1,
    recreateMesh seedRandom mathRandom palettes tableDraws w = (Returned tt, w1)
    /\ Built w w1 (rebuilds (shouldReset (data w)) (shouldUpdate (data w))).
Proof.
  intros Hready. pose proof (built_refl w Hready) as B0.
  unfold recreateMesh. rewrite bind_gets. cbv zeta.
  destruct (shouldReset (data w)), (shouldUpdate (data w)); cbn [when rebuilds Nat.add].
  - unfold resetBranch at 1. rewrite bind_assoc_run, bind_modify, bind_assoc_run, bind_modify.
    cbv beta.
    apply (built_flags_irrelevant _ _ _ (set_shouldReset false)) in B0;
      [ | now intros [? ? ? ? ?] ].
    apply (built_flags_irrelevant _ _ _ (set_shouldUpdate false)) in B0;
      [ | now intros [? ? ? ? ?] ].
    destruct (built_step true _ _ _ B0) as (w1 & E1 & B1 & _).
    rewrite (bind_returned _ _ _ _ _ E1). unfold updateBranch. rewrite bind_modify.
    apply (built_flags_irrelevant _ _ _ (set_shouldUpdate false)) in B1;
      [ | now intros [? ? ? ? ?] ].
    destruct (built_step false _ _ _ B1) as (w2 & E2 & B2 & _).
    exists w2. now split.
  - unfold resetBranch at 1. rewrite bind_assoc_run, bind_modify, bind_assoc_run, bind_modify.
    cbv beta.
    apply (built_flags_irrelevant _ _ _ (set_shouldReset false)) in B0;
      [ | now intros [? ? ? ? ?] ].
    apply (built_flags_irrelevant _ _ _ (set_shouldUpdate false)) in B0;
      [ | now intros [? ? ? ? ?] ].
    destruct (built_step true _ _ _ B0) as (w1 & E1 & B1 & _).
    rewrite (bind_returned _ _ _ _ _ E1). cbn [ret].
    exists w1. now split.
  - rewrite bind_ret. unfold updateBranch. rewrite bind_modify.
    apply (built_flags_irrelevant _ _ _ (set_shouldUpdate false)) in B0;
      [ | now intros [? ? ? ? ?] ].
    destruct (built_step false _ _ _ B0) as (w1 & E1 & B1 & _).
    exists w1. now split.
  - rewrite bind_ret. exists w. now split.
Qed.

Lemma render_flags time w :
  flags (snd (render seedRandom mathRandom palettes tableDraws time w)) = (false, false).
Proof.
  pose proof (recreateMesh_clears_flags seedRandom mathRandom palettes tableDraws w) as H0.
  unfold render. rewrite snd_bind.
  destruct (fst (recreateMesh seedRandom mathRandom palettes tableDraws w)); [ | exact H0 ].
  rewrite snd_bind.
  assert (H1 : flags (snd (rotateScene (snd (recreateMesh seedRandom mathRandom palettes tableDraws w))))
               = (false, false)).
  { unfold flags. rewrite rotateScene_keeps_data. exact H0. }
  destruct (fst (rotateScene _)); [ | exact H1 ].
  unfold flags. rewrite updateUniforms_keeps_data. exact H1.
Qed.

(** The second and third part of a frame on a world with a mesh. *)
Lemma rotate_and_update_run time w m :
  mesh w = Some m ->
  bind rotateScene (fun _ => updateUniforms time) w
  = (Returned tt,
     mkWorld (data w) (currentRandom w) (mathRandomCalls w)
       (mkScene (vec2.mk (vec2.x (rotation (scene w)) + vec2.y (currentImpulse w) * 0.9)
                         (vec2.y (rotation (scene w))
                          + (0.003 + vec2.x (currentImpulse w) * 0.9)))
                (children (scene w)))
       (Some (mkMesh (mesh_id m)
          (mkUniforms time (u_colorA (uniforms m)) (u_colorB (uniforms m)) TheCurrentImpulse
             (u_spikeCount (uniforms m)) (u_spikeLength (uniforms m))
             (vec2.y (rotation (scene w)) + (0.003 + vec2.x (currentImpulse w) * 0.9)))))
       (meshesCreated w) (isMouseDown w) (mouseList w)
       (vec2.scale (currentImpulse w) 0.9) (innerWidth w) (innerHeight w)).
Proof.
  intros Hm. rewrite (bind_returned _ _ _ _ _ (rotateScene_run w)).
  erewrite updateUniforms_run by (destruct w; exact Hm).
  now destruct w as [? ? ? [[? ?] ?] ? ? ? ? [? ?] ? ?].
Qed.

(** One frame, in full. *)
Lemma render_effect time w :
  ready w ->
  exists w' m',
    render seedRandom mathRandom palettes tableDraws time w = (Returned tt, w')
    /\ ready w'
    /\ flags w' = (false, false)
    /\ meshesCreated w'
       = (meshesCreated w + rebuilds (shouldReset (data w)) (shouldUpdate (data w)))%nat
    /\ currentImpulse w' = vec2.scale (currentImpulse w) 0.9
    /\ rotation (scene w')
       = vec2.mk (vec2.x (rotation (scene w)) + vec2.y (currentImpulse w) * 0.9)
                 (vec2.y (rotation (scene w)) + (0.003 + vec2.x (currentImpulse w) * 0.9))
    /\ mesh w' = Some m'
    /\ u_time (uniforms m') = time
    /\ u_impulse (uniforms m') = TheCurrentImpulse
    /\ u_sceneRotationY (uniforms m') = vec2.y (rotation (scene w'))
    /\ (sceneHoldsMesh w -> sceneHoldsMesh w')
    /\ ((0 < rebuilds (shouldReset (data w)) (shouldUpdate (data w)))%nat \/ synced w ->
        synced w').
Proof.
  intros Hready.
  destruct (recreateMesh_effect w Hready) as (w1 & E1 & [[Hm1 Hp1] Hc Hrot Hci Hholds Hsync]).
  destruct (mesh w1) as [m | ] eqn:Em; [ clear Hm1 | contradiction ].
  pose proof (render_flags time w) as Hfl.
  unfold render in Hfl |- *. rewrite (bind_returned _ _ _ _ _ E1) in Hfl |- *.
  rewrite (rotate_and_update_run time w1 m Em) in Hfl |- *. cbn [snd] in Hfl.
  eexists. eexists. split; [ reflexivity | ].
  rewrite <- Hrot, <- Hci.
  split; [ split; cbn; [ discriminate | exact Hp1 ] | ].
  split; [ exact Hfl | ].
  cbn [meshesCreated currentImpulse scene rotation mesh uniforms u_time u_impulse
       u_sceneRotationY vec2.y].
  repeat (split; [ first [ reflexivity | assumption ] | ]).
  split.
  - intros H0. destruct (Hholds H0) as (m0 & Em0 & Hch & Hlt).
    rewrite Em in Em0. injection Em0 as <-.
    eexists. split; [ reflexivity | ]. cbn. now split.
  - intros H0. destruct (Hsync H0) as (m0 & p & Em0 & Ep & H1 & H2 & H3 & H4).
    rewrite Em in Em0. injection Em0 as <-.
    eexists. exists p. split; [ reflexivity | ]. cbn. now repeat split.
Qed.

(** X13: a frame on a drawable world returns; it turns the scene by the
    impulse it has just decayed, rotation.x += 0.9 * impulse.y and rotation.y +=
    0.003 + 0.9 * impulse.x, and leaves the mesh's uniforms in step with it:
    u_time is the frame time, u_impulse the shared impulse object and
    u_sceneRotationY the new rotation.y. *)
Theorem X13_frame_turns_scene_and_updates_uniforms time w :
  ready w ->
  exists w' m',
    render seedRandom mathRandom palettes tableDraws time w = (Returned tt, w')
    /\ vec2.x (rotation (scene w'))
       = vec2.x (rotation (scene w)) + 0.9 * vec2.y (currentImpulse w)
    /\ vec2.y (rotation (scene w'))
       = vec2.y (rotation (scene w)) + 0.003 + 0.9 * vec2.x (currentImpulse w)
    /\ mesh w' = Some m'
    /\ u_time (uniforms m') = time
    /\ u_impulse (uniforms m') = TheCurrentImpulse
    /\ u_sceneRotationY (uniforms m') = vec2.y (rotation (scene w')).
Proof.
  intros Hready.
  destruct (render_effect time w Hready)
    as (w' & m' & E & _ & _ & _ & _ & Hrot & Hm & Ht & Hi & Hy & _).
  exists w', m'. rewrite Hrot. cbn [vec2.x vec2.y].
  repeat split; try assumption; try lra.
  rewrite Hy, Hrot. reflexivity.
Qed.

(** Any number of frames with no event in between. *)
Lemma frames_effect times :
  forall w,
    ready w ->
    exists w',
      frames seedRandom mathRandom palettes tableDraws times w = (Returned tt, w')
      /\ ready w'
      /\ currentImpulse w' = vec2.scale (currentImpulse w) (0.9 ^ length times)
      /\ vec2.x (rotation (scene w'))
         = vec2.x (rotation (scene w))
           + 9 * vec2.y (currentImpulse w) * (1 - 0.9 ^ length times)
      /\ vec2.y (rotation (scene w'))
         = vec2.y (rotation (scene w)) + 0.003 * INR (length times)
           + 9 * vec2.x (currentImpulse w) * (1 - 0.9 ^ length times)
      /\ (sceneHoldsMesh w -> sceneHoldsMesh w')
      /\ (synced w -> synced w')
      /\ (times <> [] ->
          flags w' = (false, false)
          /\ meshesCreated w'
             = (meshesCreated w
                + rebuilds (shouldReset (data w)) (shouldUpdate (data w)))%nat
          /\ ((0 < rebuilds (shouldReset (data w)) (shouldUpdate (data w)))%nat ->
              synced w')
          /\ exists m', mesh w' = Some m'
                        /\ u_impulse (uniforms m') = TheCurrentImpulse
                        /\ u_sceneRotationY (uniforms m') = vec2.y (rotation (scene w'))).
Proof.
  induction times as [ | time rest IH ]; intros w Hready.
  - exists w. cbn [frames length pow INR]. split; [ reflexivity | ].
    split; [ exact Hready | ].
    split; [ destruct (currentImpulse w); unfold vec2.scale; cbn; f_equal; ring | ].
    repeat split; try lra; try tauto; contradiction.
  - destruct (render_effect time w Hready)
      as (w1 & m1 & E1 & Hr1 & Hf1 & Hc1 & Hi1 & Hrot1 & Hm1 & _ & Hu1 & Hy1 & Hh1 & Hs1).
    destruct (IH w1 Hr1) as (w2 & E2 & Hr2 & Hi2 & Hx2 & Hy2 & Hh2 & Hs2 & Hne2).
    exists w2. cbn [frames]. rewrite (bind_returned _ _ _ _ _ E1).
    split; [ exact E2 | ]. split; [ exact Hr2 | ].
    split; [ rewrite Hi2, Hi1, scale_scale; reflexivity | ].
    rewrite Hi1, Hrot1 in Hx2, Hy2. cbn [vec2.x vec2.y vec2.scale] in Hx2, Hy2.
    change (length (time :: rest)) with (S (length rest)). rewrite S_INR. cbn [pow].
    split; [ lra | ]. split; [ lra | ].
    split; [ tauto | ]. split; [ tauto | ]. intros _.
    assert (Hflags : shouldReset (data w1) = false /\ shouldUpdate (data w1) = false)
      by (unfold flags in Hf1; split; congruence).
    destruct Hflags as [Hfr Hfu].
    destruct rest as [ | t' rest' ].
    + cbn [frames ret] in E2. injection E2 as <-.
      split; [ exact Hf1 | ]. split; [ exact Hc1 | ]. split; [ tauto | ].
      exists m1. now repeat split.
    + destruct Hne2 as (Hf2 & Hc2 & _ & Hm2); [ discriminate | ].
      rewrite Hfr, Hfu in Hc2. cbn [rebuilds Nat.add] in Hc2.
      split; [ exact Hf2 | ]. split; [ lia | ]. split; [ tauto | exact Hm2 ].
Qed.

(** X14: over k frames with no event in between the scene turns by the
    constant spin and by what the decaying impulse adds up to: rotation.x ends
    at x0 + 9 * impulse.y * (1 - 0.9^k) and rotation.y at y0 + 0.003 * k + 9 *
    impulse.x * (1 - 0.9^k); so an impulse never turns the scene by more than
    nine times its size, however many frames follow. *)
Theorem X14_impulse_turns_scene_by_at_most_nine_times times w :
  ready w ->
  let w' := snd (frames seedRandom mathRandom palettes tableDraws times w) in
  let k := length times in
  fst (frames seedRandom mathRandom palettes tableDraws times w) = Returned tt
  /\ vec2.x (rotation (scene w'))
     = vec2.x (rotation (scene w)) + 9 * vec2.y (currentImpulse w) * (1 - 0.9 ^ k)
  /\ vec2.y (rotation (scene w'))
     = vec2.y (rotation (scene w)) + 0.003 * INR k
       + 9 * vec2.x (currentImpulse w) * (1 - 0.9 ^ k)
  /\ Rabs (vec2.x (rotation (scene w')) - vec2.x (rotation (scene w)))
     <= 9 * Rabs (vec2.y (currentImpulse w))
  /\ Rabs (vec2.y (rotation (scene w')) - (vec2.y (rotation (scene w)) + 0.003 * INR k))
     <= 9 * Rabs (vec2.x (currentImpulse w)).
Proof.
  intros Hready w' k. subst w' k.
  destruct (frames_effect times w Hready) as (w' & E & _ & _ & Hx & Hy & _).
  rewrite E. cbn [fst snd]. split; [ reflexivity | ].
  split; [ exact Hx | ]. split; [ exact Hy | ].
  pose proof (pow_09_unit (length times)) as [Hq0 Hq1].
  rewrite Hx, Hy.
  split; unfold Rabs; repeat destruct (Rcase_abs _); nra.
Qed.

(** X15: the scene holds exactly the current mesh, frame after frame: if it
    does before any number of frames with no event in between (rebuilds
    pending or not), the frames return and it does after them; every rebuild
    takes the previous mesh out before the new one goes in. *)
Theorem X15_scene_holds_exactly_the_current_mesh times w :
  ready w -> sceneHoldsMesh w ->
  fst (frames seedRandom mathRandom palettes tableDraws times w) = Returned tt
  /\ sceneHoldsMesh (snd (frames seedRandom mathRandom palettes tableDraws times w)).
Proof.
  intros Hready Hholds.
  destruct (frames_effect times w Hready) as (w' & E & _ & _ & _ & _ & Hh & _).
  rewrite E. split; [ reflexivity | exact (Hh Hholds) ].
Qed.

(** X16: a rebuild request is served in the next frame and only there. After
    one or more frames with no event in between both flags are clear and
    exactly as many meshes were allocated as flags were set when the frames
    began: none, one, or two when shouldReset and shouldUpdate were both set;
    if there was a request, the uniforms of the mesh are the spikeDetail,
    spikeLength and palette colours 0 and 3 that data holds afterwards. *)
Theorem X16_request_is_served_once time times w :
  ready w ->
  let w' := snd (frames seedRandom mathRandom palettes tableDraws (time :: times) w) in
  let n := rebuilds (shouldReset (data w)) (shouldUpdate (data w)) in
  fst (frames seedRandom mathRandom palettes tableDraws (time :: times) w) = Returned tt
  /\ shouldReset (data w') = false /\ shouldUpdate (data w') = false
  /\ meshesCreated w' = (meshesCreated w + n)%nat
  /\ ((0 < n)%nat -> synced w')
  /\ (synced w -> synced w').
Proof.
  intros Hready w' n. subst w' n.
  destruct (frames_effect (time :: times) w Hready)
    as (w' & E & _ & _ & _ & _ & _ & Hs & Hne).
  destruct Hne as (Hf & Hc & Hsy & _); [ discriminate | ].
  rewrite E. cbn [fst snd]. unfold flags in Hf.
  repeat split; try assumption; congruence.
Qed.

Lemma render_keeps_params_without_reset time w :
  shouldReset (data w) = false ->
  params (snd (render seedRandom mathRandom palettes tableDraws time w)) = params w.
Proof.
  intros Hr. apply render_no_reset_keeps;
    auto using createMesh_false_keeps_params, rotate_update_keeps_params;
    now intros [[? ? ? ? ?] ? ? ? ? ? ? ? ? ? ?].
Qed.

(** X17: a slider change shows in the next frame. With no reset pending,
    after the Detail slider is set to v and a frame is rendered, the callback
    has returned, data.spikeDetail and the mesh's u_spikeCount are both v, and
    u_spikeLength is the unchanged data.spikeLength; likewise for the Size
    slider with u_spikeLength. *)
Theorem X17_slider_value_reaches_the_shader v time w :
  ready w -> shouldReset (data w) = false ->
  (let r := bind (onChangeDetail v)
              (fun _ => render seedRandom mathRandom palettes tableDraws time) w in
   fst r = Returned tt
   /\ spikeDetail (data (snd r)) = v
   /\ exists m, mesh (snd r) = Some m
                /\ u_spikeCount (uniforms m) = v
                /\ u_spikeLength (uniforms m) = spikeLength (data w))
  /\ (let r := bind (onChangeSize v)
                 (fun _ => render seedRandom mathRandom palettes tableDraws time) w in
      fst r = Returned tt
      /\ spikeLength (data (snd r)) = v
      /\ exists m, mesh (snd r) = Some m
                   /\ u_spikeLength (uniforms m) = v
                   /\ u_spikeCount (uniforms m) = spikeDetail (data w)).
Proof.
  intros Hready Hreset. split.
  - set (w1 := set_data (set_shouldUpdate true) (set_data (set_spikeDetail v) w)).
    assert (E0 : onChangeDetail v w = (Returned tt, w1)) by reflexivity.
    assert (H1 : ready w1 /\ shouldReset (data w1) = false /\ shouldUpdate (data w1) = true
                 /\ spikeDetail (data w1) = v /\ spikeLength (data w1) = spikeLength (data w)).
    { subst w1. destruct Hready as [Hm Hp].
      destruct w as [[? ? ? ? ?] ? ? ? ? ? ? ? ? ? ?]. cbn in *.
      repeat split; cbn; assumption || reflexivity. }
    destruct H1 as (Hr1 & Hre1 & Hup1 & Hd1 & Hl1).
    cbv zeta. rewrite (bind_returned _ _ _ _ _ E0).
    pose proof (render_keeps_params_without_reset time w1 Hre1) as Hpar.
    destruct (render_effect time w1 Hr1)
      as (w' & m' & E & _ & _ & _ & _ & _ & _ & _ & _ & _ & _ & Hs).
    rewrite E in Hpar |- *. cbn [fst snd] in Hpar |- *.
    unfold params in Hpar. injection Hpar as Hpd Hpl Hpp.
    destruct Hs as (m & p & Em & Ep & Hc & Hl & _).
    { left. rewrite Hre1, Hup1. cbn. lia. }
    split; [ reflexivity | ]. split; [ congruence | ].
    exists m. repeat split; congruence.
  - set (w1 := set_data (set_shouldUpdate true) (set_data (set_spikeLength v) w)).
    assert (E0 : onChangeSize v w = (Returned tt, w1)) by reflexivity.
    assert (H1 : ready w1 /\ shouldReset (data w1) = false /\ shouldUpdate (data w1) = true
                 /\ spikeLength (data w1) = v /\ spikeDetail (data w1) = spikeDetail (data w)).
    { subst w1. destruct Hready as [Hm Hp].
      destruct w as [[? ? ? ? ?] ? ? ? ? ? ? ? ? ? ?]. cbn in *.
      repeat split; cbn; assumption || reflexivity. }
    destruct H1 as (Hr1 & Hre1 & Hup1 & Hl1 & Hd1).
    cbv zeta. rewrite (bind_returned _ _ _ _ _ E0).
    pose proof (render_keeps_params_without_reset time w1 Hre1) as Hpar.
    destruct (render_effect time w1 Hr1)
      as (w' & m' & E & _ & _ & _ & _ & _ & _ & _ & _ & _ & _ & Hs).
    rewrite E in Hpar |- *. cbn [fst snd] in Hpar |- *.
    unfold params in Hpar. injection Hpar as Hpd Hpl Hpp.
    destruct Hs as (m & p & Em & Ep & Hc & Hl & _).
    { left. rewrite Hre1, Hup1. cbn. lia. }
    split; [ reflexivity | ]. split; [ congruence | ].
    exists m. repeat split; congruence.
Qed.

Lemma updateBranch_keeps_params :
  keeps params (updateBranch seedRandom mathRandom palettes tableDraws).
Proof.
  unfold updateBranch. apply keeps_bind.
  - apply keeps_modify. now intros [[? ? ? ? ?] ? ? ? ? ? ? ? ? ? ?].
  - intros _. apply createMesh_false_keeps_params.
Qed.

(** X20: Regenerate gives one of the listed presets and wins over the
    sliders. After a frame that began with shouldReset set (shouldUpdate set
    or not, whatever the sliders wrote into data), the callback has returned,
    data holds the spikeDetail, spikeLength and palette of three seeds of the
    pools, with spikeDetail in [1.35, 40], spikeLength in [1.0, 1.4] and the
    palette one of the table, and the uniforms of the mesh show them. *)
Theorem X20_regenerate_gives_a_listed_preset time w :
  ready w -> shouldReset (data w) = true ->
  let r := render seedRandom mathRandom palettes tableDraws time w in
  fst r = Returned tt
  /\ (exists s1 s2 s3,
        In s1 spikeSeeds /\ In s2 spikeLengthSeeds /\ In s3 colorSeeds
        /\ params (snd r) = (detailOfSeed seedRandom tableDraws s1, lengthOfSeed seedRandom tableDraws s2,
                             paletteOfSeed seedRandom palettes tableDraws s3))
  /\ 1.35 <= spikeDetail (data (snd r)) <= 40
  /\ 1.0 <= spikeLength (data (snd r)) <= 1.4
  /\ (exists p, palette (data (snd r)) = Some p /\ In p palettes)
  /\ synced (snd r).
Proof.
  intros Hready Hreset r. subst r.
  destruct (render_effect time w Hready)
    as (w' & m' & E & _ & _ & _ & _ & _ & _ & _ & _ & _ & _ & Hs).
  assert (Hsync : synced w').
  { apply Hs. left. rewrite Hreset. cbn. lia. }
  clear Hs.
  (* the parameters are those the reset branch generated *)
  set (w0 := set_data (set_shouldUpdate false) (set_data (set_shouldReset false) w)).
  destruct (createMesh_effect true w0) as
    (wr & p & Er & _ & _ & _ & _ & _ & _ & _ & _ & Hseeds); [ now left | ].
  destruct (Hseeds eq_refl) as (s1 & s2 & s3 & In1 & In2 & In3 & Hpar).
  assert (Ereset : resetBranch seedRandom mathRandom palettes tableDraws w = (Returned tt, wr)).
  { unfold resetBranch. rewrite !bind_modify. exact Er. }
  assert (Hparams : params w' = params wr).
  { pose proof (f_equal snd E) as Ew. cbn [snd] in Ew. rewrite <- Ew.
    unfold render. rewrite snd_bind.
    destruct (recreateMesh_effect w Hready) as (w1 & E1 & _).
    rewrite E1. cbn [fst snd].
    rewrite (rotate_update_keeps_params time w1).
    pose proof (f_equal snd E1) as Ew1. cbn [snd] in Ew1. rewrite <- Ew1.
    rewrite recreateMesh_unfold, Hreset. cbn [when].
    rewrite (bind_returned _ _ _ _ _ Ereset).
    destruct (shouldUpdate (data w)); cbn [when]; [ | reflexivity ].
    apply updateBranch_keeps_params. }
  rewrite E. cbn [fst snd]. split; [ reflexivity | ].
  rewrite Hpar in Hparams.
  split; [ exists s1, s2, s3; now repeat split | ].
  unfold params in Hparams. injection Hparams as Hd Hl Hp.
  rewrite Hd, Hl, Hp.
  split; [ apply range_bounds; [ apply seedRandom_unit | lra ] | ].
  split; [ apply range_bounds; [ apply seedRandom_unit | lra ] | ].
  split; [ apply (paletteOfSeed_in seedRandom palettes tableDraws seedRandom_unit palettes_nonempty)
         | exact Hsync ].
Qed.

(** X21: a ball at rest is drawn as the pure extrusion. When the impulse is
    (0,0) and the uniforms are the parameters in data, then after one or more
    frames with no event in between, whatever rotation the base spin has
    added up to, the vertex stage run on the mesh's uniforms puts every vertex
    at position + normal * (uvNoise * 0.39) for the spikeDetail and spikeLength
    in data: no swirl. *)
Theorem X21_ball_at_rest_is_pure_extrusion noise time times w position normal uv :
  ready w -> synced w -> currentImpulse w = vec2.mk 0 0 ->
  let w' := snd (frames seedRandom mathRandom palettes tableDraws (time :: times) w) in
  exists out,
    drawnVertex noise w' position normal uv = Some out
    /\ pos out
       = extruded noise (spikeDetail (data w')) (spikeLength (data w')) position normal.
Proof.
  intros Hready Hsynced Hzero w'. subst w'.
  destruct (frames_effect (time :: times) w Hready)
    as (w' & E & _ & Hi & _ & _ & _ & Hs & Hne).
  destruct Hne as (_ & _ & _ & m' & Em & Hu & _); [ discriminate | ].
  destruct (Hs Hsynced) as (m & p & Em2 & _ & Hcount & Hlen & _).
  rewrite Em in Em2. injection Em2 as <-.
  rewrite E. cbn [snd]. unfold drawnVertex. rewrite Em. eexists. split; [ reflexivity | ].
  rewrite Hu, Hcount, Hlen. cbn [vector2Of]. rewrite Hi, Hzero.
  replace (vec2.scale (vec2.mk 0 0) (0.9 ^ length (time :: times))) with (vec2.mk 0 0)
    by (unfold vec2.scale; cbn [vec2.x vec2.y]; f_equal; ring).
  apply vertexShader_still.
Qed.

(** X18: the generator leaves the random module seeded. After any run the
    current stream is the one of the picked colour seed, past its table draws
    and one pick, and the next run picks its spike seed from that stream, not
    from Math.random: the next spikeDetail is already fixed by the colour seed
    of the run before, and the next run calls Math.random only for its two
    resets and its two other picks, 2 * tableDraws + 2 times. *)
Theorem X18_next_detail_is_fixed_by_last_colour_seed w :
  exists s3 s1,
    In s3 colorSeeds /\ In s1 spikeSeeds
    /\ currentRandom (snd (createDefaults seedRandom mathRandom palettes tableDraws w))
       = Seeded s3 (S tableDraws)
    /\ forall w1,
         currentRandom w1 = Seeded s3 (S tableDraws) ->
         spikeDetail (data (snd (createDefaults seedRandom mathRandom palettes tableDraws w1)))
         = detailOfSeed seedRandom tableDraws s1
         /\ mathRandomCalls (snd (createDefaults seedRandom mathRandom palettes tableDraws w1))
            = (mathRandomCalls w1 + (2 * tableDraws + 2))%nat.
Proof.
  destruct (createDefaults_trace seedRandom mathRandom palettes tableDraws
              seedRandom_unit mathRandom_unit palettes_nonempty w)
    as (s1 & s2 & s3 & _ & _ & In3 & _ & _ & _ & E).
  destruct (js_index_of_draw spikeSeeds (seedRandom s3 (S tableDraws))) as (t1 & Et & Int1);
    [ discriminate | apply seedRandom_unit | ].
  exists s3, t1. split; [ exact In3 | ]. split; [ exact Int1 | ].
  split; [ rewrite E; now destruct w | ].
  intros w1 Hg.
  destruct (createDefaults_trace seedRandom mathRandom palettes tableDraws
              seedRandom_unit mathRandom_unit palettes_nonempty w1)
    as (u1 & u2 & u3 & _ & _ & _ & Eu & _ & _ & E1).
  unfold nextValue in Eu. rewrite Hg in Eu. rewrite Et in Eu. injection Eu as <-.
  rewrite E1. unfold colorSeedCall, lengthSeedCall, firstPickCalls. rewrite Hg.
  destruct w1 as [[? ? ? ? ?] ? ? ? ? ? ? ? ? ? ?]. cbn. split; [ reflexivity | lia ].
Qed.

(** X19: a rebuild without a palette fails half-way. When data.palette is
    undefined and only shouldUpdate is set, the render callback throws; by
    then the flags are clear and the old mesh is out of the scene, but no mesh
    was allocated, the mesh variable still names the old one, and the impulse
    and the rotation of this frame were not applied. *)
Theorem X19_rebuild_without_palette_throws time w :
  palette (data w) = None ->
  shouldReset (data w) = false -> shouldUpdate (data w) = true ->
  let r := render seedRandom mathRandom palettes tableDraws time w in
  fst r = Thrown
  /\ flags (snd r) = (false, false)
  /\ mesh (snd r) = mesh w
  /\ meshesCreated (snd r) = meshesCreated w
  /\ children (scene (snd r))
     = match mesh w with
       | Some old => filter (fun c => negb (Nat.eqb c (mesh_id old))) (children (scene w))
       | None => children (scene w)
       end
  /\ currentImpulse (snd r) = currentImpulse w
  /\ rotation (scene (snd r)) = rotation (scene w).
Proof.
  intros Hp Hr Hu r. subst r.
  destruct w as [[su sr p sl sd] g n [rot ch] m mc down ml ci iw ih].
  cbn in Hp, Hr, Hu. subst p sr su.
  destruct m as [old | ]; cbn; repeat split.
Qed.

End Frames.

(** ** The frame theorems at the sample state *)

Lemma sampleWorld_holds : sceneHoldsMesh sampleWorld.
Proof. eexists. split; [ reflexivity | ]. cbn. split; [ reflexivity | lia ]. Qed.

Lemma X13_frame_turns_scene_and_updates_uniforms_witness :
  (forall seed i, 0 <= zeroStream seed i < 1)
  /\ (forall i, 0 <= halfRandom i < 1)
  /\ [samplePalette] <> []
  /\ ready sampleWorld
  /\ exists w' m',
       render zeroStream halfRandom [samplePalette] 255%nat 0 sampleWorld = (Returned tt, w')
       /\ vec2.x (rotation (scene w'))
          = vec2.x (rotation (scene sampleWorld)) + 0.9 * vec2.y (currentImpulse sampleWorld)
       /\ vec2.y (rotation (scene w'))
          = vec2.y (rotation (scene sampleWorld)) + 0.003
            + 0.9 * vec2.x (currentImpulse sampleWorld)
       /\ mesh w' = Some m'
       /\ u_time (uniforms m') = 0
       /\ u_impulse (uniforms m') = TheCurrentImpulse
       /\ u_sceneRotationY (uniforms m') = vec2.y (rotation (scene w')).
Proof.
  split; [ exact zeroStream_unit | ].
  split; [ exact halfRandom_unit | ].
  split; [ exact samplePalettes_nonempty | ].
  split; [ exact sampleWorld_ready | ].
  exact (X13_frame_turns_scene_and_updates_uniforms zeroStream halfRandom [samplePalette] 255%nat
           zeroStream_unit halfRandom_unit samplePalettes_nonempty 0 sampleWorld
           sampleWorld_ready).
Defined.

Lemma X14_impulse_turns_scene_by_at_most_nine_times_witness :
  (forall seed i, 0 <= zeroStream seed i < 1)
  /\ (forall i, 0 <= halfRandom i < 1)
  /\ [samplePalette] <> []
  /\ ready sampleWorld
  /\ (let w' := snd (frames zeroStream halfRandom [samplePalette] 255%nat [0; 1; 2] sampleWorld) in
      let k := length [0; 1; 2] in
      fst (frames zeroStream halfRandom [samplePalette] 255%nat [0; 1; 2] sampleWorld) = Returned tt
      /\ vec2.x (rotation (scene w'))
         = vec2.x (rotation (scene sampleWorld))
           + 9 * vec2.y (currentImpulse sampleWorld) * (1 - 0.9 ^ k)
      /\ vec2.y (rotation (scene w'))
         = vec2.y (rotation (scene sampleWorld)) + 0.003 * INR k
           + 9 * vec2.x (currentImpulse sampleWorld) * (1 - 0.9 ^ k)
      /\ Rabs (vec2.x (rotation (scene w')) - vec2.x (rotation (scene sampleWorld)))
         <= 9 * Rabs (vec2.y (currentImpulse sampleWorld))
      /\ Rabs (vec2.y (rotation (scene w'))
               - (vec2.y (rotation (scene sampleWorld)) + 0.003 * INR k))
         <= 9 * Rabs (vec2.x (currentImpulse sampleWorld))).
Proof.
  split; [ exact zeroStream_unit | ].
  split; [ exact halfRandom_unit | ].
  split; [ exact samplePalettes_nonempty | ].
  split; [ exact sampleWorld_ready | ].
  exact (X14_impulse_turns_scene_by_at_most_nine_times zeroStream halfRandom [samplePalette] 255%nat
           zeroStream_unit halfRandom_unit samplePalettes_nonempty [0; 1; 2] sampleWorld
           sampleWorld_ready).
Defined.

Lemma X15_scene_holds_exactly_the_current_mesh_witness :
  (forall seed i, 0 <= zeroStream seed i < 1)
  /\ (forall i, 0 <= halfRandom i < 1)
  /\ [samplePalette] <> []
  /\ ready (snd (onChangeRegenerate sampleWorld))
  /\ sceneHoldsMesh (snd (onChangeRegenerate sampleWorld))
  /\ fst (frames zeroStream halfRandom [samplePalette] 255%nat [0; 1]
            (snd (onChangeRegenerate sampleWorld))) = Returned tt
  /\ sceneHoldsMesh (snd (frames zeroStream halfRandom [samplePalette] 255%nat [0; 1]
                            (snd (onChangeRegenerate sampleWorld)))).
Proof.
  split; [ exact zeroStream_unit | ].
  split; [ exact halfRandom_unit | ].
  split; [ exact samplePalettes_nonempty | ].
  split; [ exact sampleWorld_ready | ].
  split; [ exact sampleWorld_holds | ].
  exact (X15_scene_holds_exactly_the_current_mesh zeroStream halfRandom [samplePalette] 255%nat
           zeroStream_unit halfRandom_unit samplePalettes_nonempty [0; 1]
           (snd (onChangeRegenerate sampleWorld)) sampleWorld_ready sampleWorld_holds).
Defined.

Lemma X16_request_is_served_once_witness :
  (forall seed i, 0 <= zeroStream seed i < 1)
  /\ (forall i, 0 <= halfRandom i < 1)
  /\ [samplePalette] <> []
  /\ ready (snd (onChangeRegenerate (snd (onChangeDetail 30 sampleWorld))))
  /\ (let w := snd (onChangeRegenerate (snd (onChangeDetail 30 sampleWorld))) in
      let w' := snd (frames zeroStream halfRandom [samplePalette] 255%nat [0; 1] w) in
      fst (frames zeroStream halfRandom [samplePalette] 255%nat [0; 1] w) = Returned tt
      /\ shouldReset (data w') = false /\ shouldUpdate (data w') = false
      /\ meshesCreated w' = (meshesCreated w + 2)%nat
      /\ ((0 < 2)%nat -> synced w')
      /\ (synced w -> synced w')).
Proof.
  split; [ exact zeroStream_unit | ].
  split; [ exact halfRandom_unit | ].
  split; [ exact samplePalettes_nonempty | ].
  split; [ exact sampleWorld_ready | ].
  exact (X16_request_is_served_once zeroStream halfRandom [samplePalette] 255%nat
           zeroStream_unit halfRandom_unit samplePalettes_nonempty 0 [1]
           (snd (onChangeRegenerate (snd (onChangeDetail 30 sampleWorld))))
           sampleWorld_ready).
Defined.

Lemma X17_slider_value_reaches_the_shader_witness :
  (forall seed i, 0 <= zeroStream seed i < 1)
  /\ (forall i, 0 <= halfRandom i < 1)
  /\ [samplePalette] <> []
  /\ ready sampleWorld
  /\ shouldReset (data sampleWorld) = false
  /\ (let r := bind (onChangeDetail 30)
                 (fun _ => render zeroStream halfRandom [samplePalette] 255%nat 0) sampleWorld in
      fst r = Returned tt
      /\ spikeDetail (data (snd r)) = 30
      /\ exists m, mesh (snd r) = Some m
                   /\ u_spikeCount (uniforms m) = 30
                   /\ u_spikeLength (uniforms m) = spikeLength (data sampleWorld))
  /\ (let r := bind (onChangeSize 30)
                 (fun _ => render zeroStream halfRandom [samplePalette] 255%nat 0) sampleWorld in
      fst r = Returned tt
      /\ spikeLength (data (snd r)) = 30
      /\ exists m, mesh (snd r) = Some m
                   /\ u_spikeLength (uniforms m) = 30
                   /\ u_spikeCount (uniforms m) = spikeDetail (data sampleWorld)).
Proof.
  split; [ exact zeroStream_unit | ].
  split; [ exact halfRandom_unit | ].
  split; [ exact samplePalettes_nonempty | ].
  split; [ exact sampleWorld_ready | ].
  split; [ reflexivity | ].
  exact (X17_slider_value_reaches_the_shader zeroStream halfRandom [samplePalette] 255%nat
           zeroStream_unit halfRandom_unit samplePalettes_nonempty 30 0 sampleWorld
           sampleWorld_ready eq_refl).
Defined.

Lemma X18_next_detail_is_fixed_by_last_colour_seed_witness :
  (forall seed i, 0 <= zeroStream seed i < 1)
  /\ (forall i, 0 <= halfRandom i < 1)
  /\ [samplePalette] <> []
  /\ exists s3 s1,
       In s3 colorSeeds /\ In s1 spikeSeeds
       /\ currentRandom
            (snd (createDefaults zeroStream halfRandom [samplePalette] 255%nat sampleWorld))
          = Seeded s3 256
       /\ forall w1,
            currentRandom w1 = Seeded s3 256 ->
            spikeDetail
              (data (snd (createDefaults zeroStream halfRandom [samplePalette] 255%nat w1)))
            = detailOfSeed zeroStream 255%nat s1
            /\ mathRandomCalls
                 (snd (createDefaults zeroStream halfRandom [samplePalette] 255%nat w1))
               = (mathRandomCalls w1 + (2 * 255 + 2))%nat.
Proof.
  split; [ exact zeroStream_unit | ].
  split; [ exact halfRandom_unit | ].
  split; [ exact samplePalettes_nonempty | ].
  exact (X18_next_detail_is_fixed_by_last_colour_seed zeroStream halfRandom [samplePalette]
           255%nat zeroStream_unit halfRandom_unit samplePalettes_nonempty sampleWorld).
Defined.

Lemma X19_rebuild_without_palette_throws_witness :
  palette (data noPaletteWorld) = None
  /\ shouldReset (data noPaletteWorld) = false
  /\ shouldUpdate (data noPaletteWorld) = true
  /\ (let r := render zeroStream halfRandom [samplePalette] 255%nat 0 noPaletteWorld in
      fst r = Thrown
      /\ flags (snd r) = (false, false)
      /\ mesh (snd r) = mesh noPaletteWorld
      /\ meshesCreated (snd r) = meshesCreated noPaletteWorld
      /\ children (scene (snd r)) = []
      /\ currentImpulse (snd r) = currentImpulse noPaletteWorld
      /\ rotation (scene (snd r)) = rotation (scene noPaletteWorld)).
Proof.
  split; [ reflexivity | ]. split; [ reflexivity | ]. split; [ reflexivity | ].
  exact (X19_rebuild_without_palette_throws zeroStream halfRandom [samplePalette] 255%nat 0
           noPaletteWorld eq_refl eq_refl eq_refl).
Defined.

Lemma sampleWorld_synced : synced sampleWorld.
Proof. eexists. exists samplePalette. now repeat split. Qed.

Lemma X20_regenerate_gives_a_listed_preset_witness :
  (forall seed i, 0 <= zeroStream seed i < 1)
  /\ (forall i, 0 <= halfRandom i < 1)
  /\ [samplePalette] <> []
  /\ ready (snd (onChangeRegenerate sampleWorld))
  /\ shouldReset (data (snd (onChangeRegenerate sampleWorld))) = true
  /\ (let r := render zeroStream halfRandom [samplePalette] 255%nat 0
                 (snd (onChangeRegenerate sampleWorld)) in
      fst r = Returned tt
      /\ (exists s1 s2 s3,
            In s1 spikeSeeds /\ In s2 spikeLengthSeeds /\ In s3 colorSeeds
            /\ params (snd r) = (detailOfSeed zeroStream 255%nat s1, lengthOfSeed zeroStream 255%nat s2,
                                 paletteOfSeed zeroStream [samplePalette] 255%nat s3))
      /\ 1.35 <= spikeDetail (data (snd r)) <= 40
      /\ 1.0 <= spikeLength (data (snd r)) <= 1.4
      /\ (exists p, palette (data (snd r)) = Some p /\ In p [samplePalette])
      /\ synced (snd r)).
Proof.
  split; [ exact zeroStream_unit | ].
  split; [ exact halfRandom_unit | ].
  split; [ exact samplePalettes_nonempty | ].
  split; [ exact sampleWorld_ready | ].
  split; [ reflexivity | ].
  exact (X20_regenerate_gives_a_listed_preset zeroStream halfRandom [samplePalette] 255%nat
           zeroStream_unit halfRandom_unit samplePalettes_nonempty 0
           (snd (onChangeRegenerate sampleWorld)) sampleWorld_ready eq_refl).
Defined.

Lemma X21_ball_at_rest_is_pure_extrusion_witness :
  (forall seed i, 0 <= zeroStream seed i < 1)
  /\ (forall i, 0 <= halfRandom i < 1)
  /\ [samplePalette] <> []
  /\ ready sampleWorld /\ synced sampleWorld
  /\ currentImpulse sampleWorld = vec2.mk 0 0
  /\ (let w' := snd (frames zeroStream halfRandom [samplePalette] 255%nat [0; 1] sampleWorld) in
      exists out,
        drawnVertex (flatNoise 0) w' (vec3.mk 0.8 0 0) (vec3.mk 1 0 0) vec2.zero = Some out
        /\ pos out
           = extruded (flatNoise 0) (spikeDetail (data w')) (spikeLength (data w'))
               (vec3.mk 0.8 0 0) (vec3.mk 1 0 0)).
Proof.
  split; [ exact zeroStream_unit | ].
  split; [ exact halfRandom_unit | ].
  split; [ exact samplePalettes_nonempty | ].
  split; [ exact sampleWorld_ready | ].
  split; [ exact sampleWorld_synced | ].
  split; [ reflexivity | ].
  exact (X21_ball_at_rest_is_pure_extrusion zeroStream halfRandom [samplePalette] 255%nat
           zeroStream_unit halfRandom_unit samplePalettes_nonempty
           (flatNoise 0) 0 [1] sampleWorld (vec3.mk 0.8 0 0) (vec3.mk 1 0 0) vec2.zero
           sampleWorld_ready sampleWorld_synced eq_refl).
Defined.
